(** * SavePlus: the filename-convention engine and the job/scene/shot model

    A shallow embedding of [save/model.py]: the classes [SceneFile],
    [SaveData] and [Directory], together with the part of Python's
    [str], [re] and [os.path] behaviour that these classes rely on.

    Python [str] values are byte strings (the module is Python 2 code),
    modelled as [list ascii].  Objects are attribute maps from attribute
    names to values, so that reading an attribute that was never assigned
    fails the way it does in Python.  Exceptions are modelled by the
    [result] type. *)

From Stdlib Require Import Ascii String ZArith List Lia DecimalString.
From stdpp Require Import base option list gmap strings fin_maps.

(** ** Exceptions and values *)

Inductive exn : Type :=
| AttributeError (name : string)
| KeyError (key : list ascii)
| IndexError
| TypeError
| ValueError.

Inductive result (A : Type) : Type :=
| Ok (a : A)
| Raise (e : exn).
Arguments Ok {A} a.
Arguments Raise {A} e.

(** Sequencing: the first exception raised ends the computation. *)
#[global] Instance result_bind : MBind result :=
  fun A B (k : A -> result B) (r : result A) =>
    match r with
    | Ok a => k a
    | Raise e => Raise e
    end.

Abbreviation pystr := (list ascii).

Definition lit (s : string) : pystr := list_ascii_of_string s.

Inductive value : Type :=
| VNone
| VInt (z : Z)
| VStr (s : pystr).

(** Python truthiness and the [a or b] idiom on already evaluated operands. *)
Definition truthy (v : value) : bool :=
  match v with
  | VNone => false
  | VInt z => negb (z =? 0)%Z
  | VStr s => match s with [] => false | _ :: _ => true end
  end.

Definition py_or (a b : value) : value := if truthy a then a else b.

(** An object is the map of its instance attributes. *)
Abbreviation obj := (gmap string value).

Definition getattr (o : obj) (name : string) : result value :=
  match o !! name with
  | Some v => Ok v
  | None => Raise (AttributeError name)
  end.

(** ** Byte strings *)

Module Str.

Definition code (c : ascii) : nat := nat_of_ascii c.

Definition in_range (lo hi : nat) (c : ascii) : bool :=
  (lo <=? code c) && (code c <=? hi).

(** [\d] and [\w] on byte strings without locale flags. *)
Definition is_digit (c : ascii) : bool := in_range 48 57 c.
Definition is_upper (c : ascii) : bool := in_range 65 90 c.
Definition is_lower (c : ascii) : bool := in_range 97 122 c.
Definition is_word (c : ascii) : bool :=
  is_digit c || is_upper c || is_lower c || Ascii.eqb c "_"%char.

Definition one_of (cs : string) (c : ascii) : bool :=
  existsb (Ascii.eqb c) (lit cs).

Definition lower_char (c : ascii) : ascii :=
  if is_upper c then ascii_of_nat (code c + 32) else c.
Definition upper_char (c : ascii) : ascii :=
  if is_lower c then ascii_of_nat (code c - 32) else c.

(** [s.lower()] and [s.upper()]. *)
Definition lower (s : pystr) : pystr := map lower_char s.
Definition upper (s : pystr) : pystr := map upper_char s.

Definition eqb (a b : pystr) : bool := bool_decide (a = b).

(** The longest prefix of characters in a class, and what follows it. *)
Fixpoint take_class (p : ascii -> bool) (s : pystr) : pystr :=
  match s with
  | c :: t => if p c then c :: take_class p t else []
  | [] => []
  end.

Fixpoint drop_class (p : ascii -> bool) (s : pystr) : pystr :=
  match s with
  | c :: t => if p c then drop_class p t else s
  | [] => []
  end.

(** [int(s)] on a string of decimal digits; anything else is rejected. *)
Definition digit_value (c : ascii) : Z := Z.of_nat (code c - 48).

Definition int_of_digits (s : pystr) : Z :=
  fold_left (fun acc c => (10 * acc + digit_value c)%Z) s 0%Z.

Definition py_int_str (s : pystr) : result Z :=
  match s with
  | [] => Raise ValueError
  | _ :: _ => if forallb is_digit s then Ok (int_of_digits s) else Raise ValueError
  end.

(** [str(z)] for an integer. *)
Definition str_of_Z (z : Z) : pystr := lit (NilZero.string_of_int (Z.to_int z)).

(** ['%03d' % z]: sign, then the magnitude zero-padded so that the whole
    field is at least three characters wide. *)
Definition pad_left (width : nat) (fill : ascii) (s : pystr) : pystr :=
  repeat fill (width - length s) ++ s.

Definition format_03d (z : Z) : pystr :=
  if (z <? 0)%Z
  then "-"%char :: pad_left 2 "0"%char (str_of_Z (Z.abs z))
  else pad_left 3 "0"%char (str_of_Z z).

(** [s.split(sep)] for a one-character separator. *)
Fixpoint split (sep : ascii) (s : pystr) : list pystr :=
  match s with
  | [] => [[]]
  | c :: t =>
      if Ascii.eqb c sep then [] :: split sep t
      else match split sep t with
           | p :: ps => (c :: p) :: ps
           | [] => [[c]]
           end
  end.

(** [s[0]]. *)
Definition index0 (s : pystr) : result ascii :=
  match s with
  | c :: _ => Ok c
  | [] => Raise IndexError
  end.

(** [l[-1]]. *)
Definition last_item {A : Type} (l : list A) : result A :=
  match last l with
  | Some x => Ok x
  | None => Raise IndexError
  end.

Definition starts_with (p s : pystr) : bool := eqb (take (length p) s) p.

(** [s.replace(old, new)] for a non-empty [old]: left to right, without
    overlap.  [skip] counts the characters of an occurrence already
    replaced that are still to be passed over. *)
Fixpoint replace_from (old new : pystr) (skip : nat) (s : pystr) : pystr :=
  match s with
  | [] => []
  | c :: t =>
      match skip with
      | S k => replace_from old new k t
      | O =>
          if starts_with old s
          then new ++ replace_from old new (length old - 1) t
          else c :: replace_from old new 0 t
      end
  end.

Definition replace (old new s : pystr) : pystr := replace_from old new 0 s.

(** [str(v)]. *)
Definition py_str (v : value) : pystr :=
  match v with
  | VNone => lit "None"
  | VInt z => str_of_Z z
  | VStr s => s
  end.

Definition lookup_kwarg (kwargs : list (pystr * value)) (name : pystr)
  : result value :=
  match List.find (fun kv => eqb (fst kv) name) kwargs with
  | Some kv => Ok (snd kv)
  | None => Raise (KeyError name)
  end.

(** [template.format(NAME=value, ...)] for templates whose replacement
    fields are plain names in braces.  [field] holds the name being read while the
    scan is inside a pair of braces. *)
Fixpoint format_from (kwargs : list (pystr * value)) (field : option pystr)
    (s : pystr) : result pystr :=
  match s with
  | [] =>
      match field with
      | None => Ok []
      | Some _ => Raise ValueError
      end
  | c :: t =>
      match field with
      | None =>
          if Ascii.eqb c "{"%char then format_from kwargs (Some []) t
          else if Ascii.eqb c "}"%char then Raise ValueError
          else rest ← format_from kwargs None t; Ok (c :: rest)
      | Some name =>
          if Ascii.eqb c "}"%char
          then v ← lookup_kwarg kwargs name;
               rest ← format_from kwargs None t;
               Ok (py_str v ++ rest)
          else format_from kwargs (Some (name ++ [c])) t
      end
  end.

Definition format (template : pystr) (kwargs : list (pystr * value))
  : result pystr :=
  format_from kwargs None template.

(** [sep.join(items)]: every item has to be a string. *)
Fixpoint join (sep : pystr) (items : list value) : result pystr :=
  match items with
  | [] => Ok []
  | [VStr x] => Ok x
  | VStr x :: rest => tail ← join sep rest; Ok (x ++ sep ++ tail)
  | _ :: _ => Raise TypeError
  end.

(** [template.format(arg, ..., NAME=value, ...)]: a field that is a number
    refers to a positional argument, an empty field to the next one, any
    other field to a keyword argument.  Numbered and empty fields do not
    mix. *)
Inductive numbering : Type :=
| Unset
| Automatic (next : nat)
| Manual.

Definition lookup_field (args : list value) (kwargs : list (pystr * value))
    (mode : numbering) (name : pystr) : result (value * numbering) :=
  match name with
  | [] =>
      match mode with
      | Manual => Raise ValueError
      | _ =>
          let next := match mode with Automatic n => n | _ => 0 end in
          match args !! next with
          | Some v => Ok (v, Automatic (S next))
          | None => Raise IndexError
          end
      end
  | _ :: _ =>
      if forallb is_digit name
      then match mode with
           | Automatic _ => Raise ValueError
           | _ =>
               match args !! Z.to_nat (int_of_digits name) with
               | Some v => Ok (v, Manual)
               | None => Raise IndexError
               end
           end
      else v ← lookup_kwarg kwargs name; Ok (v, mode)
  end.

Fixpoint format_args_from (args : list value) (kwargs : list (pystr * value))
    (mode : numbering) (field : option pystr) (s : pystr) : result pystr :=
  match s with
  | [] =>
      match field with
      | None => Ok []
      | Some _ => Raise ValueError
      end
  | c :: t =>
      match field with
      | None =>
          if Ascii.eqb c "{"%char then format_args_from args kwargs mode (Some []) t
          else if Ascii.eqb c "}"%char then Raise ValueError
          else rest ← format_args_from args kwargs mode None t; Ok (c :: rest)
      | Some name =>
          if Ascii.eqb c "}"%char
          then va ← lookup_field args kwargs mode name;
               rest ← format_args_from args kwargs (snd va) None t;
               Ok (py_str (fst va) ++ rest)
          else format_args_from args kwargs mode (Some (name ++ [c])) t
      end
  end.

Definition format_args (template : pystr) (args : list value)
    (kwargs : list (pystr * value)) : result pystr :=
  format_args_from args kwargs Unset None template.

End Str.

(** ** Regular expressions

    The fragment of [re] used by [SceneFile]: character classes, sequence,
    ordered alternation, a greedy [+] on a class, one capturing group and
    one-character look-behind and look-ahead.  [run] lists the ways a
    pattern can match at the head of the input in the order in which the
    backtracking matcher tries them; the match that [re] reports is the
    first one. *)

Module re.

Inductive regex : Type :=
| Chr (p : ascii -> bool)
| Cat (r1 r2 : regex)
| Alt (r1 r2 : regex)
| Plus (p : ascii -> bool)
| Group (r : regex)
| LookBehind (p : ascii -> bool)
| LookAhead (p : ascii -> bool)
| Empty.

Record outcome : Type := Outcome {
  matched : pystr;
  remaining : pystr;
  group1 : option pystr
}.

(** The character before the current position once [m] has been consumed. *)
Definition prev_after (prev : option ascii) (m : pystr) : option ascii :=
  match last m with
  | Some c => Some c
  | None => prev
  end.

(** All ways of matching [p+] at the head of [s], longest first. *)
Fixpoint plus_runs (p : ascii -> bool) (s : pystr) : list (pystr * pystr) :=
  match s with
  | c :: t =>
      if p c
      then map (fun mr => (c :: fst mr, snd mr)) (plus_runs p t) ++ [([c], t)]
      else []
  | [] => []
  end.

Definition then_outcome (o1 o2 : outcome) : outcome :=
  Outcome (matched o1 ++ matched o2) (remaining o2)
          (match group1 o2 with Some g => Some g | None => group1 o1 end).

Fixpoint run (r : regex) (prev : option ascii) (s : pystr) : list outcome :=
  match r with
  | Chr p =>
      match s with
      | c :: t => if p c then [Outcome [c] t None] else []
      | [] => []
      end
  | Cat r1 r2 =>
      flat_map
        (fun o1 =>
           map (then_outcome o1)
               (run r2 (prev_after prev (matched o1)) (remaining o1)))
        (run r1 prev s)
  | Alt r1 r2 => run r1 prev s ++ run r2 prev s
  | Plus p => map (fun mr => Outcome (fst mr) (snd mr) None) (plus_runs p s)
  | Group r1 =>
      map (fun o => Outcome (matched o) (remaining o) (Some (matched o)))
          (run r1 prev s)
  | LookBehind p =>
      match prev with
      | Some c => if p c then [Outcome [] s None] else []
      | None => []
      end
  | LookAhead p =>
      match s with
      | c :: _ => if p c then [Outcome [] s None] else []
      | [] => []
      end
  | Empty => [Outcome [] s None]
  end.

(** What [findall] reports for one match: group 1 when the pattern has a
    group, the whole match otherwise. *)
Definition item (o : outcome) : pystr :=
  match group1 o with
  | Some g => g
  | None => matched o
  end.

(** A matcher tried at one position: the reported item and the number of
    characters the match consumed. *)
Abbreviation matcher := (option ascii -> pystr -> option (pystr * nat)).

Definition match_here (r : regex) : matcher :=
  fun prev s =>
    match run r prev s with
    | o :: _ => Some (item o, length (matched o))
    | [] => None
    end.

(** The scan of [findall]: positions are tried from left to right and the
    search resumes where the previous match ended.  [skip] is the number of
    characters of the previous match that are still ahead. *)
Fixpoint scan (m : matcher) (skip : nat) (prev : option ascii) (s : pystr)
  : list pystr :=
  match s with
  | [] =>
      match skip, m prev [] with
      | O, Some (x, _) => [x]
      | _, _ => []
      end
  | c :: t =>
      match skip with
      | S k => scan m k (Some c) t
      | O =>
          match m prev s with
          | Some (x, n) => x :: scan m (Nat.pred n) (Some c) t
          | None => scan m 0 (Some c) t
          end
      end
  end.

Definition findall (r : regex) (s : pystr) : list pystr :=
  scan (match_here r) 0 None s.

(** A literal under the [(?i)] flag, and a literal alternation. *)
Definition chr_i (c : ascii) : regex :=
  Chr (fun x => Ascii.eqb (Str.lower_char x) (Str.lower_char c)).

Fixpoint lit_i (s : pystr) : regex :=
  match s with
  | [] => Empty
  | c :: t => Cat (chr_i c) (lit_i t)
  end.

Fixpoint alternation (rs : list regex) : regex :=
  match rs with
  | [] => Chr (fun _ => false)
  | [r] => r
  | r :: rest => Alt r (alternation rest)
  end.

End re.

(** ** [os.path] on POSIX paths *)

Module os_path.

(** [p.rfind(c)]: the index of the last occurrence of [c], or [-1]. *)
Fixpoint rfind_from (c : ascii) (i : Z) (found : Z) (p : pystr) : Z :=
  match p with
  | [] => found
  | x :: t => rfind_from c (i + 1) (if Ascii.eqb x c then i else found) t
  end.

Definition rfind (c : ascii) (p : pystr) : Z := rfind_from c 0 (-1) p.

(** [p[i:j]] for non-negative bounds. *)
Definition slice (p : pystr) (i j : Z) : pystr :=
  take (Z.to_nat j - Z.to_nat i) (drop (Z.to_nat i) p).

(** [splitext]: the extension starts at the last dot of the last path
    component, unless that component consists of leading dots up to it. *)
Definition splitext (p : pystr) : pystr * pystr :=
  let sepIndex := rfind "/"%char p in
  let dotIndex := rfind "."%char p in
  if (sepIndex <? dotIndex)%Z
     && existsb (fun c => negb (Ascii.eqb c "."%char))
                (slice p (sepIndex + 1) dotIndex)
  then (take (Z.to_nat dotIndex) p, drop (Z.to_nat dotIndex) p)
  else (p, []).

Definition basename (p : pystr) : pystr :=
  drop (Z.to_nat (rfind "/"%char p + 1)) p.

(** [s.rstrip('/')]. *)
Definition rstrip_slash (s : pystr) : pystr :=
  rev (Str.drop_class (fun c => Ascii.eqb c "/"%char) (rev s)).

Definition dirname (p : pystr) : pystr :=
  let head := take (Z.to_nat (rfind "/"%char p + 1)) p in
  if forallb (fun c => Ascii.eqb c "/"%char) head then head
  else rstrip_slash head.

(** [os.path.join(a, b)]. *)
Definition join (a b : pystr) : pystr :=
  match b with
  | "/"%char :: _ => b
  | _ =>
      match last a with
      | None => a ++ b
      | Some c => if Ascii.eqb c "/"%char then a ++ b else a ++ "/"%char :: b
      end
  end.

End os_path.

(** ** [SceneFile]: the descriptor of a scene file name *)

Module SceneFile.

(** Line 199. *)
Definition disciplines : list pystr :=
  map lit ["MDL"; "LAYOUT"; "ANIM"; "PREVIS"; "LGT"; "FX"; "MM"; "SHADING";
           "TECHANIM"; "LOOKDEV"; "EXPORT"; "RP"; "RS"; "RB"; "RIG"].

(** Line 202: ["[\._][vV](\d+)[\._]"] *)
Definition pattern_leading_v : re.regex :=
  re.Cat (re.Chr (Str.one_of "._"))
    (re.Cat (re.Chr (Str.one_of "vV"))
       (re.Cat (re.Group (re.Plus Str.is_digit))
          (re.Chr (Str.one_of "._")))).

(** Line 203: ['(?<=[._$/])(\d+)(?=[._$/])'] *)
Definition pattern_only_numbers : re.regex :=
  re.Cat (re.LookBehind (Str.one_of "._$/"))
    (re.Cat (re.Group (re.Plus Str.is_digit))
       (re.LookAhead (Str.one_of "._$/"))).

(** Line 204: ["[\._^](\w{2})[\._$]"].  Inside a class [^] (not in
    first place) and [$] are the characters themselves. *)
Definition pattern_username : re.regex :=
  re.Cat (re.Chr (Str.one_of "._^"))
    (re.Cat (re.Group (re.Cat (re.Chr Str.is_word) (re.Chr Str.is_word)))
       (re.Chr (Str.one_of "._$"))).

(** Line 246: ['(?i)' + '|'.join(cls.disciplines)] *)
Definition pattern_disciplines : re.regex :=
  re.alternation (map re.lit_i disciplines).

(** Line 211: [gp.getuser()[0] + gp.getuser().split('-')[-1][0]], for the
    login name [login] that [getpass.getuser()] returns. *)
Definition default_user (login : pystr) : result value :=
  a ← Str.index0 login;
  part ← Str.last_item (Str.split "-"%char login);
  b ← Str.index0 part;
  Ok (VStr [a; b]).

(** Lines 206-212.  An argument that was not given is [VNone]; the default
    of [user] is computed only when [user] is false. *)
Definition __init__ (login : pystr)
    (description discipline version user optional extension : value)
  : result obj :=
  let self : obj := ∅ in
  let self := <["description" := py_or description (VStr (lit "unititled"))]> self in
  let self := <["discipline" := py_or discipline (VStr (lit "MDL"))]> self in
  let self := <["version" := py_or version (VInt 1)]> self in
  let self := <["optional" := py_or optional VNone]> self in
  user' ← (if truthy user then Ok user else default_user login);
  let self := <["user" := user']> self in
  let self := <["extension" := py_or extension (VStr (lit "ma"))]> self in
  Ok self.

(** [+] on values. *)
Definition py_add (a b : value) : result value :=
  match a, b with
  | VInt x, VInt y => Ok (VInt (x + y))
  | VStr x, VStr y => Ok (VStr (x ++ y))
  | _, _ => Raise TypeError
  end.

(** Lines 214-225. *)
Definition increment (self : obj) (version step : value) : result obj :=
  match version with
  | VNone =>
      cur ← getattr self "version";
      new ← py_add cur step;
      Ok (<["version" := new]> self)
  | _ => Ok (<["version" := version]> self)
  end.

(** Lines 239-249. *)
Definition _findDiscipline (filename : pystr) : pystr :=
  let discipline_matches := re.findall pattern_disciplines filename in
  match last discipline_matches with
  | Some m => Str.upper m
  | None => []
  end.

(** Lines 251-261. *)
Definition _findUser (filename : pystr) : pystr :=
  let match_ :=
    List.filter
      (fun m => negb (existsb (Str.eqb (Str.upper m)) disciplines))
      (re.findall pattern_username filename) in
  match last match_ with
  | Some m => Str.lower m
  | None => []
  end.

(** [int(result)], where [result] is [-1] or a captured string. *)
Definition py_int (v : value) : result Z :=
  match v with
  | VInt z => Ok z
  | VStr s => Str.py_int_str s
  | VNone => Raise TypeError
  end.

(** Lines 263-280.  [result_found] is the pair [result, found]; each of
    the two steps is [if match and not found: result, found = match[-1],
    True]. *)
Definition _findVersion (filename : pystr) : result Z :=
  let result_found := (VInt (-1), false) in
  let match_ := re.findall pattern_leading_v filename in
  let result_found :=
    match last match_ with
    | Some m => if negb (snd result_found) then (VStr m, true) else result_found
    | None => result_found
    end in
  let match_ :=
    List.filter (fun find => negb (Str.eqb find []))
                (re.findall pattern_only_numbers filename) in
  let result_found :=
    match last match_ with
    | Some m => if negb (snd result_found) then (VStr m, true) else result_found
    | None => result_found
    end in
  py_int (fst result_found).

(** Lines 282-292. *)
Definition _findExt (filename : pystr) : pystr :=
  match filename with
  | [] => lit "ma"
  | _ :: _ =>
      match Str.replace (lit ".") [] (snd (os_path.splitext filename)) with
      | [] => lit "ma"
      | ext => ext
      end
  end.

(** Lines 227-237. *)
Definition from_existing (login : pystr) (filename : pystr) : result obj :=
  version ← _findVersion filename;
  let user := _findUser filename in
  let discipline := _findDiscipline filename in
  __init__ login VNone (VStr discipline) (VInt version) (VStr user) VNone VNone.

(** Lines 294-302: [', '.join([str(self.version), self.discipline,
    self.user])], for [__repr__] and for [__str__]. *)
Definition __repr__ (self : obj) : result pystr :=
  version ← getattr self "version";
  discipline ← getattr self "discipline";
  user ← getattr self "user";
  Str.join (lit ", ") [VStr (Str.py_str version); discipline; user].

Definition __str__ (self : obj) : result pystr :=
  version ← getattr self "version";
  discipline ← getattr self "discipline";
  user ← getattr self "user";
  Str.join (lit ", ") [VStr (Str.py_str version); discipline; user].

End SceneFile.

(** ** [mpc.tessa.contexts]: the naming authority

    The authority is outside the repository.  It is an interface here: a
    context type, the constructors and the validation that [Directory]
    calls, and the tree of nodes below a job. *)

Module contexts.

#[warnings="-register-all"]
Inductive node : Type :=
| Node (name : pystr) (children : list node).

Definition name (n : node) : pystr :=
  match n with Node nm _ => nm end.

Definition findChildren (n : node) : list node :=
  match n with Node _ ch => ch end.

Class Authority : Type := {
  Context : Type;
  contextFactory : gmap pystr value -> Context;
  fromEnvironment : Context;
  Shot_fromDict : gmap pystr value -> Context;
  validateContext : Context -> bool;
  (** [dict(context)] *)
  as_dict : Context -> gmap pystr value;
  (** [context.job] *)
  job : Context -> node;
  (** the order in which a dictionary with the keys job, scene and shot
      lists its keys *)
  context_keys : list pystr
}.

(** [context.scene] and [context.shot], read by [Directory.build_path]. *)
Class Places {authority : Authority} : Type := {
  scene : Context -> node;
  shot : Context -> node
}.

End contexts.

(** ** [Directory]: the current job/scene/shot and the cached tree *)

Module Directory.
Section WithAuthority.
Context {authority : contexts.Authority}.

(** Lines 84-85. *)
Definition scene_ignore_list : list pystr :=
  map lit ["pitch"; "archive"; "library"; "pantry"; "reference"; "ripple";
           "stats"; "templates"; "contactSheets"; "common"; "docs"].

Definition shot_ignore_list : list pystr :=
  map lit ["nuke_template"; "config"; "tools"].

Record t : Type := Build {
  context : contexts.Context;
  tree_cache : gmap pystr (gmap pystr (list pystr))
}.

Definition set_context (c : contexts.Context) (self : t) : t :=
  Build c (tree_cache self).

Definition set_tree_cache (tc : gmap pystr (gmap pystr (list pystr)))
    (self : t) : t :=
  Build (context self) tc.

(** [x in l] *)
Definition py_in (x : pystr) (l : list pystr) : bool :=
  existsb (Str.eqb x) l.

(** Lines 185-188. *)
Definition _parse_path (file_path : pystr) : list pystr :=
  let folders :=
    List.filter
      (fun folder => negb (Str.eqb folder []) && negb (Str.eqb folder (lit "jobs")))
      (Str.split "/"%char file_path) in
  take 3 folders.

(** Lines 160-173.  The nested dictionary is updated in place: [alter]
    reaches the entry of the job, and below it the entry of the scene. *)
Definition refresh_tree (self : t) : t :=
  let job := contexts.job (context self) in
  let self := set_tree_cache ∅ self in
  let self := set_tree_cache (<[contexts.name job := ∅]> (tree_cache self)) self in
  fold_left
    (fun self scene =>
       if negb (py_in (contexts.name scene) scene_ignore_list)
       then
         let self :=
           set_tree_cache
             (alter (insert (contexts.name scene) [])
                    (contexts.name job) (tree_cache self)) self in
         fold_left
           (fun self shot =>
              set_tree_cache
                (alter (alter (fun shots => shots ++ [contexts.name shot])
                              (contexts.name scene))
                       (contexts.name job) (tree_cache self)) self)
           (contexts.findChildren scene) self
       else self)
    (contexts.findChildren job) self.

(** The argument of the constructor: a path, a dictionary, or anything
    else (the context then comes from the environment). *)
Inductive context_in : Type :=
| InStr (path : pystr)
| InDict (d : gmap pystr value)
| InNone.

(** Lines 88-108. *)
Definition __init__ (arg : context_in) : t :=
  let ctx :=
    match arg with
    | InStr path =>
        let parse_values := _parse_path path in
        let job_context : gmap pystr value :=
          list_to_map (map (fun k => (k, VNone))
                           [lit "job"; lit "scene"; lit "shot"]) in
        let job_context :=
          fold_left
            (fun jc ik =>
               match parse_values !! fst ik with
               | Some v => <[snd ik := VStr v]> jc
               | None => jc
               end)
            (combine (seq 0 (length contexts.context_keys)) contexts.context_keys)
            job_context in
        contexts.contextFactory job_context
    | InDict d => contexts.contextFactory d
    | InNone => contexts.fromEnvironment
    end in
  refresh_tree (Build ctx ∅).

(** Lines 180-183. *)
Definition validate (self : t) : bool :=
  contexts.validateContext (context self).

(** [d[key]] *)
Definition getitem {V : Type} (d : gmap pystr V) (key : pystr) : result V :=
  match d !! key with
  | Some v => Ok v
  | None => Raise (KeyError key)
  end.

(** [if from_dict:] holds for a dictionary that was given and is not empty. *)
Definition given_dict (from_dict : option (gmap pystr value))
  : option (gmap pystr value) :=
  match from_dict with
  | Some d => if bool_decide (d = ∅) then None else Some d
  | None => None
  end.

(** Lines 110-130.  The outcome of the method together with the object
    after the call: an exception leaves the mutations made before it in
    place. *)
Definition set_cur_dir (self : t) (job shot scene : value)
    (from_dict : option (gmap pystr value)) : result bool * t :=
  let orig_context := context self in
  let candidate : result contexts.Context :=
    match given_dict from_dict with
    | Some d => Ok (contexts.Shot_fromDict d)
    | None =>
        let cur_context := contexts.as_dict (context self) in
        j ← (if truthy job then Ok job else getitem cur_context (lit "job"));
        let cur_context := <[lit "job" := j]> cur_context in
        sh ← (if truthy shot then Ok shot else getitem cur_context (lit "shot"));
        let cur_context := <[lit "shot" := sh]> cur_context in
        sc ← (if truthy scene then Ok scene else getitem cur_context (lit "scene"));
        let cur_context := <[lit "scene" := sc]> cur_context in
        Ok (contexts.Shot_fromDict cur_context)
    end in
  match candidate with
  | Raise e => (Raise e, self)
  | Ok c =>
      let self := set_context c self in
      if negb (validate self)
      then (Ok false, set_context orig_context self)
      else (Ok true, self)
  end.

(** Lines 138-158.  [get_shots] and [get_scenes] extend the list bound to
    [filter]; the second component is that list after the call, for a list
    of the caller's own ([Shared] has the lists that calls can share).
    The keys of a dictionary come in the order of [map_to_list]. *)
Definition get_shots (self : t) (scene_name : pystr) (filter : list pystr)
  : result (option (list pystr)) * list pystr :=
  let filter := filter ++ shot_ignore_list in
  (scenes ← getitem (tree_cache self) (contexts.name (contexts.job (context self)));
   match scenes !! scene_name with
   | Some shots =>
       Ok (Some (List.filter (fun shot => negb (py_in shot filter)) shots))
   | None => Ok None
   end,
   filter).

Definition get_scenes (self : t) (filter : list pystr)
  : result (list pystr) * list pystr :=
  let filter := filter ++ scene_ignore_list in
  (scenes ← getitem (tree_cache self) (contexts.name (contexts.job (context self)));
   Ok (List.filter (fun scene => negb (py_in scene filter))
                   (map fst (map_to_list scenes))),
   filter).

(** Line 86. *)
Definition path_format_string : pystr := lit "/jobs/{JOB}/{SCENE}/{SHOT}".

(** Lines 131-133, for the list of paths that [glob('/jobs/*')] returns. *)
Definition get_jobs (listing : list pystr) : list pystr :=
  map (fun path => Str.replace (lit "/jobs/") [] path) listing.

(** Lines 135-136. *)
Definition get_job (self : t) : contexts.node :=
  contexts.job (context self).

Section WithPlaces.
Context {places : contexts.Places}.

(** Lines 175-178. *)
Definition build_path (self : t) : result pystr :=
  Str.format path_format_string
    [(lit "JOB", VStr (contexts.name (contexts.job (context self))));
     (lit "SCENE", VStr (contexts.name (contexts.scene (context self))));
     (lit "SHOT", VStr (contexts.name (contexts.shot (context self))))].

End WithPlaces.

End WithAuthority.
End Directory.

(** ** The list objects of the readers

    [filter += self.shot_ignore_list] extends the list object that is
    bound to [filter].  That object is a list of the caller, the default
    value of the parameter (one list for each reader, made when the class
    body is run and bound again at every call that leaves [filter] out),
    or one of the two class attributes themselves. *)

Module Shared.

Inductive ref : Type :=
| ClassSceneIgnore
| ClassShotIgnore
| DefaultOfGetShots
| DefaultOfGetScenes
| CallersList.

(** What each of the lists holds. *)
Record store : Type := Store {
  scene_ignore_list : list pystr;
  shot_ignore_list : list pystr;
  get_shots_filter : list pystr;
  get_scenes_filter : list pystr;
  callers_list : list pystr
}.

(** The lists once the class body has run (lines 84-85, 138 and 151). *)
Definition at_import (callers_list : list pystr) : store :=
  Store Directory.scene_ignore_list Directory.shot_ignore_list [] []
        callers_list.

Definition read (r : ref) (h : store) : list pystr :=
  match r with
  | ClassSceneIgnore => scene_ignore_list h
  | ClassShotIgnore => shot_ignore_list h
  | DefaultOfGetShots => get_shots_filter h
  | DefaultOfGetScenes => get_scenes_filter h
  | CallersList => callers_list h
  end.

Definition write (r : ref) (l : list pystr) (h : store) : store :=
  match r with
  | ClassSceneIgnore =>
      Store l (shot_ignore_list h) (get_shots_filter h) (get_scenes_filter h)
            (callers_list h)
  | ClassShotIgnore =>
      Store (scene_ignore_list h) l (get_shots_filter h) (get_scenes_filter h)
            (callers_list h)
  | DefaultOfGetShots =>
      Store (scene_ignore_list h) (shot_ignore_list h) l (get_scenes_filter h)
            (callers_list h)
  | DefaultOfGetScenes =>
      Store (scene_ignore_list h) (shot_ignore_list h) (get_shots_filter h) l
            (callers_list h)
  | CallersList =>
      Store (scene_ignore_list h) (shot_ignore_list h) (get_shots_filter h)
            (get_scenes_filter h) l
  end.

(** [a += b] on lists: [a] is extended with the items that [b] holds when
    the statement runs, also when [b] is [a] itself. *)
Definition iadd (a b : ref) (h : store) : store :=
  write a (read a h ++ read b h) h.

Section WithAuthority.
Context {authority : contexts.Authority}.

(** Lines 138-149.  [filter] is the list object passed, if any. *)
Definition get_shots (self : Directory.t) (scene_name : pystr)
    (filter : option ref) (h : store)
  : result (option (list pystr)) * store :=
  let filter :=
    match filter with Some r => r | None => DefaultOfGetShots end in
  let h := iadd filter ClassShotIgnore h in
  (scenes ← Directory.getitem (Directory.tree_cache self)
             (contexts.name (contexts.job (Directory.context self)));
   match scenes !! scene_name with
   | Some shots =>
       Ok (Some (List.filter
                   (fun shot => negb (Directory.py_in shot (read filter h)))
                   shots))
   | None => Ok None
   end,
   h).

(** Lines 151-158. *)
Definition get_scenes (self : Directory.t) (filter : option ref) (h : store)
  : result (list pystr) * store :=
  let filter :=
    match filter with Some r => r | None => DefaultOfGetScenes end in
  let h := iadd filter ClassSceneIgnore h in
  (scenes ← Directory.getitem (Directory.tree_cache self)
             (contexts.name (contexts.job (Directory.context self)));
   Ok (List.filter (fun scene => negb (Directory.py_in scene (read filter h)))
                   (map fst (map_to_list scenes))),
   h).

End WithAuthority.

(** The lists after [n] calls in a row. *)
Fixpoint calls {A : Type} (n : nat) (call : store -> A * store) (h : store)
  : store :=
  match n with
  | 0 => h
  | S n => (call (calls n call h)).2
  end.

End Shared.

(** ** [SaveData]: a scene file together with its place in the tree *)

Module SaveData.
Section WithAuthority.
Context {authority : contexts.Authority}.

(** Line 30. *)
Definition template_string : pystr :=
  lit "{DESCRIPTION}_{DISCIPLINE}_{VERSION}_{INITIALS}_{OPTIONAL}{EXT}".

Record t : Type := Build {
  input_folder : pystr;
  input_file : pystr;
  is_new_file : Z;
  username : pystr;
  dir : Directory.t;
  scene_file : obj;
  filename : option pystr
}.

Definition set_filename (f : pystr) (self : t) : t :=
  Build (input_folder self) (input_file self) (is_new_file self)
        (username self) (dir self) (scene_file self) (Some f).

(** Lines 35-43. *)
Definition __init__ (login : pystr) (input_filepath : pystr) : result t :=
  let input_folder := os_path.dirname input_filepath in
  let input_file := os_path.basename input_filepath in
  let is_new_file := if Str.eqb input_filepath [] then 1%Z else 0%Z in
  let username := login in
  let dir := Directory.__init__ (Directory.InStr input_filepath) in
  scene_file ← SceneFile.__init__ login (VStr input_file) VNone VNone VNone VNone VNone;
  Ok (Build input_folder input_file is_new_file username dir scene_file None).

(** ['%03d' % v] *)
Definition percent_03d (v : value) : result pystr :=
  match v with
  | VInt z => Ok (Str.format_03d z)
  | _ => Raise TypeError
  end.

Definition is_None (v : value) : bool :=
  match v with VNone => true | _ => false end.

(** Lines 45-59.  The attributes are read in the order in which Python
    evaluates them: the test on [optional], then the arguments of
    [format] from first to last. *)
Definition get_filename (self : t) : result pystr * t :=
  let template_string_copy := template_string in
  let outcome : result pystr :=
    optional ← getattr (scene_file self) "optional";
    let template_string_copy :=
      if is_None optional
      then Str.replace (lit "_{OPTIONAL}") [] template_string_copy
      else template_string_copy in
    description ← getattr (scene_file self) "description";
    discipline ← getattr (scene_file self) "discipline";
    version ← getattr (scene_file self) "version";
    version ← percent_03d version;
    initials ← getattr (scene_file self) "initials";
    optional ← getattr (scene_file self) "optional";
    extension ← getattr (scene_file self) "extension";
    Str.format template_string_copy
      [(lit "DESCRIPTION", description);
       (lit "DISCIPLINE", discipline);
       (lit "VERSION", VStr version);
       (lit "INITIALS", initials);
       (lit "OPTIONAL", optional);
       (lit "EXT", extension)] in
  match outcome with
  | Ok f => (Ok f, set_filename f self)
  | Raise e => (Raise e, self)
  end.

(** Lines 29 and 31-33. *)
Definition template_discipline_folder : pystr := lit "maya/scenes/{DISCIPLINE}".

Definition discipline_LUT : gmap pystr pystr :=
  list_to_map
    (map (fun kv => (lit (fst kv), lit (snd kv)))
       [("MDL", "model"); ("LAYOUT", "layout"); ("ANIM", "anim");
        ("PREVIS", "previs"); ("LGT", "lighting"); ("LOOKDEV", "lighting");
        ("FX", "fx"); ("MM", "matchmove"); ("EXPORT", "export");
        ("SHADING", "shading"); ("RIG", "rig"); ("RP", "rigPuppet");
        ("RS", "rigSkeleton"); ("RB", "rigBound"); ("TECHANIM", "techAnim")]).

(** [self.discipline_LUT[key]] *)
Definition lut_item (key : value) : result pystr :=
  match key with
  | VStr d =>
      match discipline_LUT !! d with
      | Some folder => Ok folder
      | None => Raise (KeyError d)
      end
  | _ => Raise (KeyError (Str.py_str key))
  end.

(** Lines 61-67.  The folder is passed to [format] as a positional
    argument. *)
Definition _get_discipline_folder (self : t) : result pystr :=
  discipline ← getattr (scene_file self) "discipline";
  dir ← lut_item discipline;
  let dir :=
    if Directory.py_in dir [lit "rigPuppet"; lit "rigBound"; lit "rigSkeleton"]
    then os_path.join (lit "rig") dir
    else dir in
  Str.format_args template_discipline_folder [VStr dir] [].

End WithAuthority.
End SaveData.

(** ** An in-memory naming authority

    A small tree of two jobs, used to run the model on concrete inputs.  A
    context is the dictionary it was made from; it is valid when its job,
    scene and shot name a path of the tree. *)

Module Studio.

Definition tree : list contexts.node :=
  [contexts.Node (lit "alpha")
     [contexts.Node (lit "build")
        [contexts.Node (lit "char_a") []; contexts.Node (lit "config") []];
      contexts.Node (lit "archive") [contexts.Node (lit "old") []];
      contexts.Node (lit "shots") [contexts.Node (lit "sh01") []]];
   contexts.Node (lit "beta")
     [contexts.Node (lit "shots") [contexts.Node (lit "sh02") []]]].

Definition find_node (nm : value) (l : list contexts.node)
  : option contexts.node :=
  match nm with
  | VStr s => List.find (fun n => Str.eqb (contexts.name n) s) l
  | _ => None
  end.

Definition lookup_or_none (d : gmap pystr value) (k : pystr) : value :=
  match d !! k with
  | Some v => v
  | None => VNone
  end.

Definition job (d : gmap pystr value) : contexts.node :=
  match find_node (lookup_or_none d (lit "job")) tree with
  | Some n => n
  | None => contexts.Node [] []
  end.

Definition valid (d : gmap pystr value) : bool :=
  match find_node (lookup_or_none d (lit "job")) tree with
  | Some j =>
      match find_node (lookup_or_none d (lit "scene")) (contexts.findChildren j) with
      | Some sc =>
          match find_node (lookup_or_none d (lit "shot")) (contexts.findChildren sc) with
          | Some _ => true
          | None => false
          end
      | None => false
      end
  | None => false
  end.

Definition context_of (j sc sh : string) : gmap pystr value :=
  <[lit "job" := VStr (lit j)]>
    (<[lit "scene" := VStr (lit sc)]>
       (<[lit "shot" := VStr (lit sh)]> ∅)).

#[export] Instance authority : contexts.Authority := {|
  contexts.Context := gmap pystr value;
  contexts.contextFactory := fun d => d;
  contexts.fromEnvironment := context_of "alpha" "build" "char_a";
  contexts.Shot_fromDict := fun d => d;
  contexts.validateContext := valid;
  contexts.as_dict := fun d => d;
  contexts.job := job;
  contexts.context_keys := [lit "job"; lit "scene"; lit "shot"]
|}.

Definition scene (d : gmap pystr value) : contexts.node :=
  match find_node (lookup_or_none d (lit "scene")) (contexts.findChildren (job d)) with
  | Some n => n
  | None => contexts.Node [] []
  end.

Definition shot (d : gmap pystr value) : contexts.node :=
  match find_node (lookup_or_none d (lit "shot")) (contexts.findChildren (scene d)) with
  | Some n => n
  | None => contexts.Node [] []
  end.

#[export] Instance places : @contexts.Places authority := {|
  contexts.scene := scene;
  contexts.shot := shot
|}.

End Studio.

(** ** The naming convention, stated on positions of the file name

    An occurrence is a position of the file name at which a token of some
    kind starts, whether or not it overlaps another one. *)

Module Spec.

(** The occurrences of a kind of token in [s], from left to right: the
    position, the token and the number of characters it spans. *)
Fixpoint occurrences (m : re.matcher) (i : nat) (prev : option ascii)
    (s : pystr) : list (nat * pystr * nat) :=
  match s with
  | [] =>
      match m prev [] with
      | Some (x, n) => [(i, x, n)]
      | None => []
      end
  | c :: t =>
      match m prev s with
      | Some (x, n) => [(i, x, n)]
      | None => []
      end ++ occurrences m (S i) (Some c) t
  end.

Definition all_occurrences (m : re.matcher) (s : pystr)
  : list (nat * pystr * nat) :=
  occurrences m 0 None s.

(** The occurrences taken by a reader that goes from left to right and
    passes over an occurrence that starts before the end of the one it
    took last. *)
Fixpoint taken (free : nat) (occs : list (nat * pystr * nat)) : list pystr :=
  match occs with
  | [] => []
  | (i, x, n) :: rest =>
      if free <=? i then x :: taken (i + n) rest else taken free rest
  end.

Definition tokens (occs : list (nat * pystr * nat)) : list pystr :=
  map (fun o => snd (fst o)) occs.

(** An explicit version marker: ['.'] or ['_'], a [v] of either case, a
    run of digits, ['.'] or ['_']. *)
Definition marker_here : re.matcher :=
  fun _ s =>
    match s with
    | c0 :: c1 :: t =>
        match Str.take_class Str.is_digit t, Str.drop_class Str.is_digit t with
        | d :: ds, c2 :: _ =>
            if Str.one_of "._" c0 && Str.one_of "vV" c1 && Str.one_of "._" c2
            then Some (d :: ds, 3 + length (d :: ds))
            else None
        | _, _ => None
        end
    | _ => None
    end.

(** A bare number: a run of digits with one of [. _ $ /] on either side. *)
Definition bare_number_here : re.matcher :=
  fun prev s =>
    match prev, Str.take_class Str.is_digit s, Str.drop_class Str.is_digit s with
    | Some b, d :: ds, a :: _ =>
        if Str.one_of "._$/" b && Str.one_of "._$/" a
        then Some (d :: ds, length (d :: ds))
        else None
    | _, _, _ => None
    end.

(** A two-character token between delimiters drawn from [left] and
    [right]. *)
Definition token_between (left right : string) : re.matcher :=
  fun _ s =>
    match s with
    | c0 :: a :: b :: c3 :: _ =>
        if Str.one_of left c0 && Str.is_word a && Str.is_word b
           && Str.one_of right c3
        then Some ([a; b], 4)
        else None
    | _ => None
    end.

(** The tokens the code reads, and the tokens of the naming convention. *)
Definition token_here : re.matcher := token_between "._^" "._$".
Definition separated_token_here : re.matcher := token_between "._" "._".

Definition is_discipline (tok : pystr) : bool :=
  existsb (Str.eqb (Str.upper tok)) SceneFile.disciplines.

(** A discipline code in any case. *)
Definition spells (d s : pystr) : bool :=
  Str.eqb (Str.lower (take (length d) s)) (Str.lower d).

Definition code_here : re.matcher :=
  fun _ s =>
    match List.find (fun d => spells d s) SceneFile.disciplines with
    | Some d => Some (d, length d)
    | None => None
    end.

(** The value stored for an inferred version: zero gives way to the
    default of the constructor. *)
Definition stored_version (z : Z) : Z := if (z =? 0)%Z then 1%Z else z.

(** The version, discipline and author as the left-to-right reader finds
    them. *)
Definition read_version (s : pystr) : Z :=
  match last (taken 0 (all_occurrences marker_here s)) with
  | Some ds => Str.int_of_digits ds
  | None =>
      match last (tokens (all_occurrences bare_number_here s)) with
      | Some ds => Str.int_of_digits ds
      | None => (-1)%Z
      end
  end.

Definition read_discipline (s : pystr) : pystr :=
  match last (taken 0 (all_occurrences code_here s)) with
  | Some d => d
  | None => lit "MDL"
  end.

Definition read_user (s : pystr) : option pystr :=
  match last (List.filter (fun tok => negb (is_discipline tok))
                          (taken 0 (all_occurrences token_here s))) with
  | Some tok => Some (Str.lower tok)
  | None => None
  end.

(** The same three as the right-most occurrence, overlapping or not. *)
Definition rightmost_version (s : pystr) : Z :=
  match last (tokens (all_occurrences marker_here s)) with
  | Some ds => Str.int_of_digits ds
  | None =>
      match last (tokens (all_occurrences bare_number_here s)) with
      | Some ds => Str.int_of_digits ds
      | None => (-1)%Z
      end
  end.

Definition rightmost_discipline (s : pystr) : pystr :=
  match last (tokens (all_occurrences code_here s)) with
  | Some d => d
  | None => lit "MDL"
  end.

Definition rightmost_user (s : pystr) : pystr :=
  match last (List.filter (fun tok => negb (is_discipline tok))
                          (tokens (all_occurrences separated_token_here s))) with
  | Some tok => Str.lower tok
  | None => []
  end.

(** An occurrence is clear of the ones before it when none of them runs
    past its first character. *)
Definition clear_of (before : list (nat * pystr * nat)) (i : nat) : bool :=
  forallb (fun o => snd o + fst (fst o) <=? i) before.

(** The file name split at its last [c]. *)
Fixpoint rsplit (c : ascii) (s : pystr) : option (pystr * pystr) :=
  match s with
  | [] => None
  | x :: t =>
      match rsplit c t with
      | Some (a, b) => Some (x :: a, b)
      | None => if Ascii.eqb x c then Some ([], t) else None
      end
  end.

Definition is_dot (c : ascii) : bool := Ascii.eqb c "."%char.
Definition is_slash (c : ascii) : bool := Ascii.eqb c "/"%char.

Definition last_component (s : pystr) : pystr :=
  match rsplit "/"%char s with
  | Some (_, b) => b
  | None => s
  end.

Definition or_ma (ext : pystr) : pystr :=
  match ext with
  | [] => lit "ma"
  | _ :: _ => ext
  end.

(** What follows the final dot, or [ma]. *)
Definition after_final_dot (s : pystr) : pystr :=
  match rsplit "."%char s with
  | Some (_, ext) => or_ma ext
  | None => lit "ma"
  end.

(** The same, for a final dot that belongs to the last path component and
    has something other than dots before it there. *)
Definition extension_of (s : pystr) : pystr :=
  match rsplit "."%char s with
  | Some (stem, ext) =>
      if existsb is_slash ext || forallb is_dot (last_component stem)
      then lit "ma"
      else or_ma ext
  | None => lit "ma"
  end.

(** A field that was supplied replaces the current one. *)
Definition overlay (current : gmap pystr value) (job shot scene : value)
  : gmap pystr value :=
  let put (key : string) (arg : value) (d : gmap pystr value) :=
    if truthy arg then <[lit key := arg]> d else d in
  put "scene" scene (put "shot" shot (put "job" job current)).

Definition available (current : gmap pystr value) (key : string)
    (arg : value) : bool :=
  truthy arg || bool_decide (is_Some (current !! lit key)).

(** The shots cached for a scene name: all the children of the last of
    the scenes that bears the name, unless the name is ignored. *)
Definition cached_shots (scenes : list contexts.node) (scene_name : pystr)
  : option (list pystr) :=
  if Directory.py_in scene_name Directory.scene_ignore_list then None
  else
    match last (List.filter (fun sc => Str.eqb (contexts.name sc) scene_name)
                            scenes) with
    | Some sc => Some (map contexts.name (contexts.findChildren sc))
    | None => None
    end.

(** Versions and steps are integers. *)
Definition int_or_none (v : value) : Prop :=
  v = VNone \/ exists z, v = VInt z.

(** The descriptors: what the constructor builds and [increment] updates. *)
Inductive descriptor (login : pystr) : obj -> Prop :=
| descriptor_init description discipline version user optional extension sf :
    int_or_none version ->
    SceneFile.__init__ login description discipline version user optional
      extension = Ok sf ->
    descriptor login sf
| descriptor_increment sf version step sf' :
    descriptor login sf ->
    int_or_none version ->
    (exists z, step = VInt z) ->
    SceneFile.increment sf version step = Ok sf' ->
    descriptor login sf'.

End Spec.

(** ** Notions used in the proofs *)

(** A fact about one character is settled on its 256 values. *)
Ltac by_cases_on_char c :=
  destruct c as [[] [] [] [] [] [] [] []]; vm_compute; congruence.

(** A matcher whose items are renamed by [f]. *)
Definition relabel (f : pystr -> pystr) (r : option (pystr * nat))
  : option (pystr * nat) :=
  match r with
  | Some (x, n) => Some (f x, n)
  | None => None
  end.

(** The match reported for a list of outcomes. *)
Definition first_outcome (l : list re.outcome) : option (pystr * nat) :=
  match l with
  | o :: _ => Some (re.item o, length (re.matched o))
  | [] => None
  end.

(** A non-empty string of digits. *)
Definition digit_run (x : pystr) : Prop :=
  x <> [] /\ forallb Str.is_digit x = true.

(** One step of sequencing. *)
Ltac step_bind := unfold mbind, result_bind; cbv beta iota.

(** What caching one scene does to the scenes of the job. *)
Definition cache_scene (m : gmap pystr (list pystr)) (sc : contexts.node)
  : gmap pystr (list pystr) :=
  if Directory.py_in (contexts.name sc) Directory.scene_ignore_list then m
  else <[contexts.name sc := map contexts.name (contexts.findChildren sc)]> m.

(** What holds of the attributes of every descriptor. *)
Definition descriptor_shape (sf : obj) : Prop :=
  sf !! "initials" = None /\
  (exists z, sf !! "version" = Some (VInt z)) /\
  is_Some (sf !! "optional") /\
  is_Some (sf !! "description") /\
  is_Some (sf !! "discipline").

(** A name that can stand for a folder of a path below [/jobs]. *)
Definition path_segment (n : pystr) : bool :=
  negb (Str.eqb n []) && negb (Str.eqb n (lit "jobs"))
  && negb (existsb Spec.is_slash n).

(** * The left-to-right scan *)

Section Scan.
Variable m : re.matcher.

Lemma occurrences_from i prev s j x n :
  (j, x, n) ∈ Spec.occurrences m i prev s -> i <= j.
Proof.
  revert i prev. induction s as [|c t IH]; intros i prev; simpl.
  - destruct (m prev []) as [[y k]|]; [|by intros ?%elem_of_nil].
    intros [= -> -> ->]%list_elem_of_singleton. lia.
  - rewrite elem_of_app. intros [H|H].
    + destruct (m prev (c :: t)) as [[y k]|]; [|by apply elem_of_nil in H].
      apply list_elem_of_singleton in H. injection H as -> _ _. lia.
    + apply IH in H. lia.
Qed.

Lemma taken_free f1 f2 occs :
  (forall j x n, (j, x, n) ∈ occs -> f1 <= j /\ f2 <= j) ->
  Spec.taken f1 occs = Spec.taken f2 occs.
Proof.
  destruct occs as [|[[j x] n] rest]; [done|]. intros H. simpl.
  destruct (H j x n) as [H1 H2]; [left|].
  apply Nat.leb_le in H1, H2. by rewrite H1, H2.
Qed.

Hypothesis consumes :
  forall prev s x n, m prev s = Some (x, n) -> 1 <= n.

Lemma scan_taken s : forall i skip prev,
  re.scan m skip prev s = Spec.taken (i + skip) (Spec.occurrences m i prev s).
Proof.
  induction s as [|c t IH]; intros i skip prev; simpl.
  - destruct skip as [|k].
    + destruct (m prev []) as [[x n]|] eqn:E; simpl; [|done].
      rewrite Nat.add_0_r, Nat.leb_refl. done.
    + destruct (m prev []) as [[x n]|] eqn:E; simpl; [|done].
      replace (i + S k <=? i) with false; [done|].
      symmetry. apply Nat.leb_gt. lia.
  - destruct skip as [|k].
    + destruct (m prev (c :: t)) as [[x n]|] eqn:E; simpl.
      * rewrite Nat.add_0_r, Nat.leb_refl. f_equal.
        rewrite (IH (S i)). f_equal. apply consumes in E. lia.
      * rewrite (IH (S i)). apply taken_free.
        intros j y k H. apply occurrences_from in H. lia.
    + rewrite (IH (S i)).
      destruct (m prev (c :: t)) as [[x n]|] eqn:E; simpl.
      * replace (i + S k <=? i) with false.
        -- f_equal. lia.
        -- symmetry. apply Nat.leb_gt. lia.
      * f_equal. lia.
Qed.

Lemma findall_taken s :
  re.scan m 0 None s = Spec.taken 0 (Spec.all_occurrences m s).
Proof. apply (scan_taken s 0 0 None). Qed.

End Scan.

Lemma scan_ext (m1 m2 : re.matcher) :
  (forall prev s, m1 prev s = m2 prev s) ->
  forall s skip prev, re.scan m1 skip prev s = re.scan m2 skip prev s.
Proof.
  intros E. induction s as [|c t IH]; intros skip prev; simpl.
  - by rewrite E.
  - destruct skip; [|done]. rewrite E.
    destruct (m2 prev (c :: t)) as [[x n]|]; by rewrite IH.
Qed.

(** * The patterns *)

Lemma flat_map_map {A B C : Type} (f : B -> list C) (g : A -> B) (l : list A) :
  flat_map f (map g l) = flat_map (fun a => f (g a)) l.
Proof. induction l as [|a l IH]; simpl; [done|]. by rewrite IH. Qed.

Lemma plus_runs_then (p : ascii -> bool) :
  forall (s : pystr) (K : pystr -> pystr -> list re.outcome),
  (forall w c t, p c = true -> K w (c :: t) = []) ->
  flat_map (fun mr => K (fst mr) (snd mr)) (re.plus_runs p s) =
  match Str.take_class p s with
  | d :: ds => K (d :: ds) (Str.drop_class p s)
  | [] => []
  end.
Proof.
  induction s as [|c t IH]; intros K HK; simpl; [done|].
  destruct (p c) eqn:Hc; simpl; [|done].
  rewrite flat_map_app, flat_map_map. simpl.
  rewrite (IH (fun w r => K (c :: w) r)) by (intros; by apply HK).
  rewrite app_nil_r.
  destruct t as [|d t']; simpl; [done|].
  destruct (p d) eqn:Hd; simpl.
  - rewrite (HK [c] d t' Hd). by rewrite app_nil_r.
  - done.
Qed.

Lemma digit_not_delimiter c :
  Str.is_digit c = true -> Str.one_of "._$/" c = false.
Proof. by_cases_on_char c. Qed.

Lemma digit_not_separator c :
  Str.is_digit c = true -> Str.one_of "._" c = false.
Proof. by_cases_on_char c. Qed.

Lemma leading_v_here prev s :
  re.match_here SceneFile.pattern_leading_v prev s = Spec.marker_here prev s.
Proof.
  unfold re.match_here, SceneFile.pattern_leading_v, Spec.marker_here.
  destruct s as [|c0 [|c1 t]]; simpl.
  - done.
  - by destruct (Str.one_of "._" c0).
  - destruct (Str.one_of "._" c0) eqn:H0; simpl.
    2:{ by destruct (Str.take_class Str.is_digit t), (Str.drop_class Str.is_digit t). }
    destruct (Str.one_of "vV" c1) eqn:H1; simpl.
    2:{ by destruct (Str.take_class Str.is_digit t), (Str.drop_class Str.is_digit t). }
    rewrite !flat_map_map. simpl.
    rewrite (plus_runs_then Str.is_digit t
               (fun w r =>
                  map (re.then_outcome (re.Outcome w r (Some w)))
                      match r with
                      | [] => []
                      | c :: t0 =>
                          if Str.one_of "._" c
                          then [re.Outcome [c] t0 None] else []
                      end)).
    2:{ intros w c t0 Hc. by rewrite (digit_not_separator c Hc). }
    destruct (Str.take_class Str.is_digit t) as [|d ds]; [done|].
    destruct (Str.drop_class Str.is_digit t) as [|c2 t2]; [done|].
    destruct (Str.one_of "._" c2); simpl; [|done].
    unfold re.item. simpl. f_equal. f_equal.
    rewrite length_app. simpl. lia.
Qed.

Lemma only_numbers_here prev s :
  re.match_here SceneFile.pattern_only_numbers prev s =
  Spec.bare_number_here prev s.
Proof.
  unfold re.match_here, SceneFile.pattern_only_numbers, Spec.bare_number_here.
  simpl. destruct prev as [b|]; simpl; [|done].
  destruct (Str.one_of "._$/" b) eqn:Hb; simpl.
  2:{ destruct (Str.take_class Str.is_digit s); [done|].
      by destruct (Str.drop_class Str.is_digit s). }
  rewrite app_nil_r, !flat_map_map. simpl.
  rewrite (plus_runs_then Str.is_digit s
             (fun w r =>
                map (re.then_outcome (re.Outcome w r (Some w)))
                    match r with
                    | [] => []
                    | c :: _ =>
                        if Str.one_of "._$/" c
                        then [re.Outcome [] r None] else []
                    end)).
  2:{ intros w c t0 Hc. by rewrite (digit_not_delimiter c Hc). }
  destruct (Str.take_class Str.is_digit s) as [|d ds]; [done|].
  destruct (Str.drop_class Str.is_digit s) as [|a t2]; [done|].
  destruct (Str.one_of "._$/" a); simpl; [|done].
  unfold re.item. simpl. by rewrite app_nil_r.
Qed.

Lemma username_here prev s :
  re.match_here SceneFile.pattern_username prev s = Spec.token_here prev s.
Proof.
  unfold re.match_here, SceneFile.pattern_username, Spec.token_here,
    Spec.token_between.
  destruct s as [|c0 [|a [|b [|c3 t]]]]; simpl.
  - done.
  - by destruct (Str.one_of "._^" c0).
  - destruct (Str.one_of "._^" c0); simpl; [|done].
    by destruct (Str.is_word a).
  - destruct (Str.one_of "._^" c0); simpl; [|done].
    destruct (Str.is_word a); simpl; [|done].
    by destruct (Str.is_word b).
  - destruct (Str.one_of "._^" c0); simpl; [|done].
    destruct (Str.is_word a); simpl; [|done].
    destruct (Str.is_word b); simpl; [|done].
    by destruct (Str.one_of "._$" c3).
Qed.

Lemma scan_relabel (f : pystr -> pystr) (m1 m2 : re.matcher) :
  (forall prev s, m2 prev s = relabel f (m1 prev s)) ->
  forall s skip prev,
    re.scan m2 skip prev s = map f (re.scan m1 skip prev s).
Proof.
  intros E. induction s as [|c t IH]; intros skip prev; simpl.
  - rewrite E. destruct skip; destruct (m1 prev []) as [[x n]|]; done.
  - destruct skip; [|done]. rewrite E.
    destruct (m1 prev (c :: t)) as [[x n]|]; simpl; by rewrite IH.
Qed.

Lemma spells_nil s : Spec.spells [] s = true.
Proof. done. Qed.

Lemma spells_cons c d x t :
  Spec.spells (c :: d) (x :: t) =
  Ascii.eqb (Str.lower_char x) (Str.lower_char c) && Spec.spells d t.
Proof.
  unfold Spec.spells, Str.eqb. simpl.
  destruct (Ascii.eqb_spec (Str.lower_char x) (Str.lower_char c)) as [E|E]; simpl.
  - rewrite E. apply bool_decide_ext. split; [by intros [= ->]|by intros ->].
  - apply bool_decide_eq_false. by intros [= ? _].
Qed.

Lemma spells_empty c d : Spec.spells (c :: d) [] = false.
Proof. done. Qed.

Lemma spells_length d s : Spec.spells d s = true -> length (take (length d) s) = length d.
Proof.
  unfold Spec.spells, Str.eqb, Str.lower. intros H%bool_decide_eq_true.
  apply (f_equal length) in H. by rewrite !length_map in H.
Qed.

Lemma run_lit_i d : forall prev s,
  re.run (re.lit_i d) prev s =
  if Spec.spells d s
  then [re.Outcome (take (length d) s) (drop (length d) s) None]
  else [].
Proof.
  induction d as [|c d IH]; intros prev s; simpl.
  - done.
  - destruct s as [|x t]; [done|]. rewrite spells_cons.
    destruct (Ascii.eqb (Str.lower_char x) (Str.lower_char c)); simpl; [|done].
    rewrite IH, app_nil_r. by destruct (Spec.spells d t).
Qed.

Lemma run_alternation ds : forall prev s,
  first_outcome (re.run (re.alternation (map re.lit_i ds)) prev s) =
  match List.find (fun d => Spec.spells d s) ds with
  | Some d => Some (take (length d) s, length d)
  | None => None
  end.
Proof.
  induction ds as [|d ds IH]; intros prev s.
  - simpl. by destruct s.
  - destruct ds as [|d' ds'].
    + simpl. rewrite run_lit_i.
      destruct (Spec.spells d s) eqn:E; simpl; [|done].
      by rewrite (spells_length d s E).
    + change (re.alternation (map re.lit_i (d :: d' :: ds')))
        with (re.Alt (re.lit_i d) (re.alternation (map re.lit_i (d' :: ds')))).
      change (re.run (re.Alt ?a ?b) prev s) with (re.run a prev s ++ re.run b prev s).
      rewrite run_lit_i.
      change (List.find (fun d0 => Spec.spells d0 s) (d :: d' :: ds'))
        with (if Spec.spells d s then Some d
              else List.find (fun d0 => Spec.spells d0 s) (d' :: ds')).
      destruct (Spec.spells d s) eqn:E.
      * simpl. by rewrite (spells_length d s E).
      * simpl app. apply IH.
Qed.

Lemma upper_lower_char a : Str.upper_char (Str.lower_char a) = Str.upper_char a.
Proof. by_cases_on_char a. Qed.

Lemma upper_of_lower (a b : pystr) :
  Str.lower a = Str.lower b -> Str.upper a = Str.upper b.
Proof.
  revert b. induction a as [|x a IH]; intros [|y b]; simpl; try done.
  intros [= E1 E2]. f_equal; [|by apply IH].
  by rewrite <- (upper_lower_char x), E1, upper_lower_char.
Qed.

Lemma disciplines_upper d :
  In d SceneFile.disciplines -> Str.upper d = d.
Proof.
  intros H.
  assert (forallb (fun d => Str.eqb (Str.upper d) d) SceneFile.disciplines = true)
    as F by (vm_compute; reflexivity).
  rewrite forallb_forall in F. apply F in H. by apply bool_decide_eq_true in H.
Qed.

Lemma disciplines_here prev s :
  Spec.code_here prev s =
  relabel Str.upper (re.match_here SceneFile.pattern_disciplines prev s).
Proof.
  unfold Spec.code_here, re.match_here, SceneFile.pattern_disciplines.
  fold (first_outcome
          (re.run (re.alternation (map re.lit_i SceneFile.disciplines)) prev s)).
  rewrite run_alternation.
  destruct (List.find _ SceneFile.disciplines) as [d|] eqn:E; simpl; [|done].
  apply find_some in E as [Hin Hs]. f_equal. f_equal.
  rewrite <- (disciplines_upper d Hin) at 1.
  symmetry. apply upper_of_lower. by apply bool_decide_eq_true in Hs.
Qed.

(** * What the three inference functions read *)

Lemma scan_Forall (P : pystr -> Prop) (m : re.matcher) :
  (forall prev s x n, m prev s = Some (x, n) -> P x) ->
  forall s skip prev, Forall P (re.scan m skip prev s).
Proof.
  intros HP. induction s as [|c t IH]; intros skip prev; simpl.
  - destruct skip; [|constructor].
    destruct (m prev []) as [[x n]|] eqn:E; [|constructor].
    constructor; [by eapply HP|constructor].
  - destruct skip; [|apply IH].
    destruct (m prev (c :: t)) as [[x n]|] eqn:E; [|apply IH].
    constructor; [by eapply HP|apply IH].
Qed.

Lemma take_class_all p s : forallb p (Str.take_class p s) = true.
Proof.
  induction s as [|c t IH]; simpl; [done|].
  destruct (p c) eqn:E; simpl; [|done]. by rewrite E.
Qed.

Lemma marker_here_digits prev s x n :
  Spec.marker_here prev s = Some (x, n) -> digit_run x.
Proof.
  unfold Spec.marker_here. destruct s as [|c0 [|c1 t]]; try done.
  pose proof (take_class_all Str.is_digit t) as H.
  destruct (Str.take_class Str.is_digit t) as [|d ds]; [done|].
  destruct (Str.drop_class Str.is_digit t) as [|c2 t2]; [done|].
  destruct (_ && _); [|done]. intros [= <- _]. by split.
Qed.

Lemma marker_here_consumes prev s x n :
  Spec.marker_here prev s = Some (x, n) -> 1 <= n.
Proof.
  unfold Spec.marker_here. destruct s as [|c0 [|c1 t]]; try done.
  destruct (Str.take_class Str.is_digit t) as [|d ds]; [done|].
  destruct (Str.drop_class Str.is_digit t) as [|c2 t2]; [done|].
  destruct (_ && _); [|done]. intros [= _ <-]. lia.
Qed.

Lemma bare_number_here_digits prev s x n :
  Spec.bare_number_here prev s = Some (x, n) -> digit_run x.
Proof.
  unfold Spec.bare_number_here. destruct prev as [b|]; [|done].
  pose proof (take_class_all Str.is_digit s) as H.
  destruct (Str.take_class Str.is_digit s) as [|d ds]; [done|].
  destruct (Str.drop_class Str.is_digit s) as [|c2 t2]; [done|].
  destruct (_ && _); [|done]. intros [= <- _]. by split.
Qed.

Lemma token_here_consumes l r prev s x n :
  Spec.token_between l r prev s = Some (x, n) -> 1 <= n /\ x <> [].
Proof.
  unfold Spec.token_between. destruct s as [|c0 [|a [|b [|c3 t]]]]; try done.
  destruct (_ && _); [|done]. intros [= <- <-]. split; [lia|done].
Qed.

Lemma code_here_consumes prev s x n :
  Spec.code_here prev s = Some (x, n) -> 1 <= n /\ x <> [].
Proof.
  unfold Spec.code_here.
  destruct (List.find _ _) as [d|] eqn:E; [|done]. intros [= <- <-].
  apply find_some in E as [Hin _].
  assert (forallb (fun d => negb (Str.eqb d [])) SceneFile.disciplines = true)
    as F by (vm_compute; reflexivity).
  rewrite forallb_forall in F. apply F in Hin.
  destruct d; [done|]. split; [simpl; lia|done].
Qed.

(** Bare numbers never overlap: every occurrence is read. *)
Lemma scan_bare_numbers s : forall i skip prev,
  (skip = 0 \/
   (exists d, prev = Some d /\ Str.is_digit d = true) /\
   skip <= length (Str.take_class Str.is_digit s)) ->
  re.scan Spec.bare_number_here skip prev s =
  Spec.tokens (Spec.occurrences Spec.bare_number_here i prev s).
Proof.
  induction s as [|c t IH]; intros i skip prev Hskip.
  - simpl. unfold Spec.bare_number_here. simpl.
    destruct prev; by destruct skip.
  - destruct skip as [|k].
    + cbn [re.scan Spec.occurrences].
      destruct (Spec.bare_number_here prev (c :: t)) as [[x n]|] eqn:E.
      * cbn [app]. unfold Spec.tokens at 1. cbn [map fst snd]. f_equal.
        apply IH. unfold Spec.bare_number_here in E.
        destruct prev as [b|]; [|done]. simpl in E.
        destruct (Str.is_digit c) eqn:Hc; [|done].
        destruct (Str.drop_class Str.is_digit t) as [|a t2]; [done|].
        destruct (_ && _); [|done]. injection E as <- <-.
        right. split; [by exists c|]. simpl. lia.
      * cbn [app]. apply IH. by left.
    + destruct Hskip as [?|[(d & -> & Hd) Hk]]; [done|].
      cbn [re.scan Spec.occurrences].
      replace (Spec.bare_number_here (Some d) (c :: t)) with (@None (pystr * nat)).
      * cbn [app]. apply IH. right. simpl in Hk.
        destruct (Str.is_digit c) eqn:Hc; [|simpl in Hk; lia].
        split; [by exists c|]. simpl in Hk. lia.
      * unfold Spec.bare_number_here.
        rewrite (digit_not_delimiter d Hd).
        destruct (Str.take_class Str.is_digit (c :: t)); [done|].
        by destruct (Str.drop_class Str.is_digit (c :: t)).
Qed.

Lemma py_int_digit_run x :
  digit_run x -> Str.py_int_str x = Ok (Str.int_of_digits x).
Proof.
  intros [Hne Hd]. unfold Str.py_int_str.
  destruct x; [done|]. by rewrite Hd.
Qed.

Lemma filter_all {A : Type} (f : A -> bool) (l : list A) :
  Forall (fun x => f x = true) l -> List.filter f l = l.
Proof.
  induction 1 as [|x l Hx _ IH]; simpl; [done|]. by rewrite Hx, IH.
Qed.

Lemma last_Forall {A : Type} (P : A -> Prop) (l : list A) x :
  Forall P l -> last l = Some x -> P x.
Proof.
  intros H E. apply last_Some in E as [l' ->].
  apply Forall_app in H as [_ H]. by inversion H.
Qed.

Lemma last_map {A B : Type} (f : A -> B) (l : list A) :
  last (map f l) = option_map f (last l).
Proof.
  induction l as [|x l IH]; [done|].
  destruct l as [|y l]; [done|].
  change (last (map f (y :: l)) = option_map f (last (y :: l))).
  exact IH.
Qed.

Lemma findall_leading_v s :
  re.findall SceneFile.pattern_leading_v s =
  Spec.taken 0 (Spec.all_occurrences Spec.marker_here s).
Proof.
  unfold re.findall.
  rewrite (scan_ext _ Spec.marker_here leading_v_here).
  apply findall_taken, marker_here_consumes.
Qed.

Lemma findall_only_numbers s :
  re.findall SceneFile.pattern_only_numbers s =
  Spec.tokens (Spec.all_occurrences Spec.bare_number_here s).
Proof.
  unfold re.findall.
  rewrite (scan_ext _ Spec.bare_number_here only_numbers_here).
  apply scan_bare_numbers. by left.
Qed.

Lemma findall_username s :
  re.findall SceneFile.pattern_username s =
  Spec.taken 0 (Spec.all_occurrences Spec.token_here s).
Proof.
  unfold re.findall.
  rewrite (scan_ext _ Spec.token_here username_here).
  apply findall_taken. intros prev s' x n H.
  by apply token_here_consumes in H as [? _].
Qed.

Lemma findall_disciplines s :
  map Str.upper (re.findall SceneFile.pattern_disciplines s) =
  Spec.taken 0 (Spec.all_occurrences Spec.code_here s).
Proof.
  unfold re.findall.
  rewrite <- (scan_relabel Str.upper _ Spec.code_here disciplines_here).
  apply findall_taken. intros prev s' x n H.
  by apply code_here_consumes in H as [? _].
Qed.

Lemma findVersion_reads s :
  SceneFile._findVersion s = Ok (Spec.read_version s).
Proof.
  unfold SceneFile._findVersion, Spec.read_version.
  rewrite findall_leading_v.
  assert (Forall digit_run (Spec.taken 0 (Spec.all_occurrences Spec.marker_here s)))
    as Hm.
  { rewrite <- findall_taken by apply marker_here_consumes.
    apply scan_Forall, marker_here_digits. }
  assert (Forall digit_run (re.findall SceneFile.pattern_only_numbers s)) as Hn.
  { unfold re.findall.
    rewrite (scan_ext _ Spec.bare_number_here only_numbers_here).
    apply scan_Forall, bare_number_here_digits. }
  rewrite filter_all.
  2:{ eapply Forall_impl; [exact Hn|]. intros x [Hx _]. by destruct x. }
  rewrite findall_only_numbers in Hn |- *.
  destruct (last (Spec.taken 0 _)) as [x|] eqn:E1; simpl.
  - assert (digit_run x) as Hx by exact (last_Forall _ _ _ Hm E1).
    destruct (last (Spec.tokens _)); simpl; by apply py_int_digit_run.
  - destruct (last (Spec.tokens _)) as [y|] eqn:E2; simpl; [|done].
    apply py_int_digit_run. exact (last_Forall _ _ _ Hn E2).
Qed.

Lemma findDiscipline_reads s :
  SceneFile._findDiscipline s =
  match last (Spec.taken 0 (Spec.all_occurrences Spec.code_here s)) with
  | Some d => d
  | None => []
  end.
Proof.
  unfold SceneFile._findDiscipline.
  rewrite <- findall_disciplines, last_map.
  by destruct (last (re.findall _ s)).
Qed.

Lemma findUser_reads s :
  SceneFile._findUser s =
  match Spec.read_user s with
  | Some u => u
  | None => []
  end.
Proof.
  unfold SceneFile._findUser, Spec.read_user.
  rewrite findall_username.
  by destruct (last _).
Qed.

Lemma taken_codes_nonempty s :
  Forall (fun d => d <> [])
         (Spec.taken 0 (Spec.all_occurrences Spec.code_here s)).
Proof.
  rewrite <- findall_taken.
  - apply scan_Forall. intros prev s' x n H.
    by apply code_here_consumes in H as [_ ?].
  - intros prev s' x n H. by apply code_here_consumes in H as [? _].
Qed.

Lemma taken_tokens_nonempty s :
  Forall (fun d => d <> [])
         (Spec.taken 0 (Spec.all_occurrences Spec.token_here s)).
Proof.
  rewrite <- findall_taken.
  - apply scan_Forall. intros prev s' x n H.
    by apply token_here_consumes in H as [_ ?].
  - intros prev s' x n H. by apply token_here_consumes in H as [? _].
Qed.

Lemma read_user_nonempty s u : Spec.read_user s = Some u -> u <> [].
Proof.
  unfold Spec.read_user.
  destruct (last _) as [tok|] eqn:E; [|done]. intros [= <-].
  apply last_Some_elem_of, list_elem_of_In, filter_In in E as [Hin _].
  apply list_elem_of_In in Hin.
  pose proof (taken_tokens_nonempty s) as F.
  rewrite Forall_forall in F. apply F in Hin. by destruct tok.
Qed.

(** The descriptor [from_existing] builds, given what [__init__] stores
    as the author. *)
Lemma from_existing_reads login s :
  SceneFile.from_existing login s =
  (user ← match Spec.read_user s with
          | Some u => Ok (VStr u)
          | None => SceneFile.default_user login
          end;
   Ok (<["extension" := VStr (lit "ma")]>
         (<["user" := user]>
            (<["optional" := VNone]>
               (<["version" := VInt (Spec.stored_version (Spec.read_version s))]>
                  (<["discipline" := VStr (Spec.read_discipline s)]>
                     (<["description" := VStr (lit "unititled")]> ∅))))))).
Proof.
  unfold SceneFile.from_existing. rewrite findVersion_reads.
  unfold mbind, result_bind, SceneFile.__init__.
  rewrite findUser_reads, findDiscipline_reads.
  assert (py_or (VInt (Spec.read_version s)) (VInt 1) =
          VInt (Spec.stored_version (Spec.read_version s))) as ->.
  { unfold py_or, Spec.stored_version. simpl.
    by destruct (Spec.read_version s =? 0)%Z. }
  assert (py_or (VStr match last (Spec.taken 0 (Spec.all_occurrences Spec.code_here s)) with
                      | Some d => d
                      | None => []
                      end) (VStr (lit "MDL")) = VStr (Spec.read_discipline s)) as ->.
  { unfold Spec.read_discipline.
    destruct (last _) as [d|] eqn:E; [|done].
    pose proof (last_Forall _ _ _ (taken_codes_nonempty s) E). by destruct d. }
  destruct (Spec.read_user s) as [u|] eqn:E.
  - apply read_user_nonempty in E. by destruct u.
  - done.
Qed.

(** * Which occurrences the reader takes *)

Lemma taken_split before : forall free i x n after,
  Spec.clear_of before i = true -> free <= i ->
  exists l1,
    Spec.taken free (before ++ (i, x, n) :: after) =
    l1 ++ x :: Spec.taken (i + n) after.
Proof.
  induction before as [|[[j y] k] before IH]; intros free i x n after Hc Hf.
  - exists []. simpl. apply Nat.leb_le in Hf. by rewrite Hf.
  - simpl in Hc. apply andb_true_iff in Hc as [Hj Hc].
    apply Nat.leb_le in Hj. simpl.
    destruct (free <=? j).
    + destruct (IH (j + k) i x n after Hc) as [l1 E]; [lia|].
      exists (y :: l1). by rewrite E.
    + by apply IH.
Qed.

Lemma taken_tokens occs : forall free x,
  x ∈ Spec.taken free occs -> x ∈ Spec.tokens occs.
Proof.
  induction occs as [|[[j y] k] occs IH]; intros free x; simpl; [done|].
  destruct (free <=? j).
  - intros [->|H]%elem_of_cons; [left|right; by eapply IH].
  - intros H. right. by eapply IH.
Qed.

Lemma taken_first occs : occs <> [] -> Spec.taken 0 occs <> [].
Proof. by destruct occs as [|[[j y] k] occs]. Qed.

Lemma taken_rightmost before i x n :
  Spec.clear_of before i = true ->
  last (Spec.taken 0 (before ++ [(i, x, n)])) = Some x.
Proof.
  intros Hc. destruct (taken_split before 0 i x n [] Hc) as [l1 ->]; [lia|].
  apply last_snoc.
Qed.

Lemma filter_none {A : Type} (f : A -> bool) (l : list A) :
  Forall (fun x => f x = false) l -> List.filter f l = [].
Proof.
  induction 1 as [|x l Hx _ IH]; simpl; [done|]. by rewrite Hx.
Qed.

Lemma taken_rightmost_kept (keep : pystr -> bool) before i x n after :
  Spec.clear_of before i = true ->
  keep x = true ->
  forallb (fun y => negb (keep y)) (Spec.tokens after) = true ->
  last (List.filter keep (Spec.taken 0 (before ++ (i, x, n) :: after))) = Some x.
Proof.
  intros Hc Hx Ha.
  destruct (taken_split before 0 i x n after Hc) as [l1 ->]; [lia|].
  rewrite List.filter_app. simpl. rewrite Hx.
  rewrite (filter_none keep (Spec.taken (i + n) after)).
  - apply last_snoc.
  - apply Forall_forall. intros y Hy%taken_tokens.
    rewrite forallb_forall in Ha. apply list_elem_of_In, Ha in Hy.
    by apply negb_true_iff in Hy.
Qed.

Lemma default_user_raises login e :
  SceneFile.default_user login = Raise e -> e = IndexError.
Proof.
  unfold SceneFile.default_user, mbind, result_bind, Str.index0, Str.last_item.
  destruct login as [|a login]; [by intros [= <-]|].
  destruct (last _) as [[|b part]|]; by intros [= <-].
Qed.

(** [from_existing] returns a descriptor unless it finds no author and
    the login name yields no initials. *)
Lemma from_existing_outcome login s :
  (SceneFile.from_existing login s = Raise IndexError /\
   Spec.read_user s = None /\
   SceneFile.default_user login = Raise IndexError) \/
  (exists sf user,
     SceneFile.from_existing login s = Ok sf /\
     match Spec.read_user s with
     | Some u => user = VStr u
     | None => SceneFile.default_user login = Ok user
     end /\
     sf !! "version" = Some (VInt (Spec.stored_version (Spec.read_version s))) /\
     sf !! "discipline" = Some (VStr (Spec.read_discipline s)) /\
     sf !! "user" = Some user /\
     sf !! "extension" = Some (VStr (lit "ma")) /\
     sf !! "initials" = None).
Proof.
  rewrite from_existing_reads.
  destruct (Spec.read_user s) as [u|].
  - right. eexists _, _. split; [reflexivity|]. by repeat split.
  - destruct (SceneFile.default_user login) as [v|e] eqn:E.
    + right. eexists _, _. split; [reflexivity|]. by repeat split.
    + left. apply default_user_raises in E as ->. by repeat split.
Qed.

(** * The examples of the naming convention *)

Example version_of_marker :
  SceneFile._findVersion (lit "char_mdl_rig_v007_aw_12.ma") = Ok 7%Z.
Proof. vm_compute. reflexivity. Qed.

Example version_of_bare_numbers :
  SceneFile._findVersion (lit "asset_12_aw_45.ma") = Ok 45%Z.
Proof. vm_compute. reflexivity. Qed.

Example version_undetermined :
  SceneFile._findVersion (lit "scene.ma") = Ok (-1)%Z.
Proof. vm_compute. reflexivity. Qed.

Example discipline_rightmost :
  SceneFile._findDiscipline (lit "char_mdl_rig_v003.ma") = lit "RIG".
Proof. vm_compute. reflexivity. Qed.

Example user_not_a_discipline :
  SceneFile._findUser (lit "char_rig_aw_v2.ma") = lit "aw".
Proof. vm_compute. reflexivity. Qed.

Example user_after_a_short_discipline :
  SceneFile._findUser (lit "char_RP_aw_v001.ma") = [].
Proof. vm_compute. reflexivity. Qed.

Example user_inside_a_token :
  Spec.all_occurrences Spec.separated_token_here (lit "_a__b_") =
    [(0, lit "a_", 4); (2, lit "_b", 4)] /\
  SceneFile._findUser (lit "_a__b_") = lit "a_".
Proof. split; vm_compute; reflexivity. Qed.

Example findall_resumes_after_a_match :
  re.findall SceneFile.pattern_leading_v (lit "a_v1_v2_v3_.ma") =
    [lit "1"; lit "3"] /\
  re.findall SceneFile.pattern_only_numbers (lit "a_1_2_3_.ma") =
    [lit "1"; lit "2"; lit "3"] /\
  re.findall SceneFile.pattern_username (lit "a_bc_de_fg_.ma") =
    [lit "bc"; lit "fg"] /\
  re.findall SceneFile.pattern_disciplines (lit "lgtechanim_Rig") =
    [lit "lgt"; lit "anim"; lit "Rig"].
Proof. repeat split; vm_compute; reflexivity. Qed.

Example extension_examples :
  SceneFile._findExt (lit "foo.tar.gz") = lit "gz" /\
  SceneFile._findExt (lit ".bashrc") = lit "ma" /\
  SceneFile._findExt (lit "a.b/c") = lit "ma" /\
  SceneFile._findExt (lit "foo.") = lit "ma" /\
  SceneFile._findExt [] = lit "ma".
Proof. repeat split; vm_compute; reflexivity. Qed.

Example version_segment :
  Str.format_03d 7 = lit "007" /\ Str.format_03d (-1) = lit "-01" /\
  Str.format_03d 1234 = lit "1234".
Proof. repeat split; vm_compute; reflexivity. Qed.

(** * Inference from an existing file name *)

Lemma stored_version_nonzero z : z <> 0%Z -> Spec.stored_version z = z.
Proof.
  intros Hz. unfold Spec.stored_version. by destruct (Z.eqb_spec z 0).
Qed.

(** C1 (as amended).  [from_existing] either raises [IndexError] (only when
    no author token is read and the login name yields no initials) or
    returns a descriptor whose version is settled in two tiers.  When the
    name holds explicit version markers, the version is the value of the
    digit run of the last marker taken by a left-to-right reader that
    passes over a marker starting on the closing separator of the marker
    it took before; this is the right-most marker whenever that one is
    clear of the markers before it.  Without markers it is the value of
    the right-most bare number, and without either it is [-1].  All this
    is stated for a digit run whose value is not zero. *)
Theorem version_inference (login s : pystr) :
  let markers := Spec.all_occurrences Spec.marker_here s in
  let numbers := Spec.all_occurrences Spec.bare_number_here s in
  (SceneFile.from_existing login s = Raise IndexError /\
   Spec.read_user s = None /\
   SceneFile.default_user login = Raise IndexError) \/
  (exists sf,
     SceneFile.from_existing login s = Ok sf /\
     (markers <> [] ->
      exists ds,
        last (Spec.taken 0 markers) = Some ds /\
        (Str.int_of_digits ds <> 0%Z ->
         sf !! "version" = Some (VInt (Str.int_of_digits ds)))) /\
     (forall before i ds n,
        markers = before ++ [(i, ds, n)] ->
        Spec.clear_of before i = true ->
        Str.int_of_digits ds <> 0%Z ->
        sf !! "version" = Some (VInt (Str.int_of_digits ds))) /\
     (markers = [] ->
      forall ds,
        last (Spec.tokens numbers) = Some ds ->
        Str.int_of_digits ds <> 0%Z ->
        sf !! "version" = Some (VInt (Str.int_of_digits ds))) /\
     (markers = [] -> numbers = [] -> sf !! "version" = Some (VInt (-1)))).
Proof.
  intros markers numbers.
  destruct (from_existing_outcome login s) as [H|(sf & user & H & _ & Hv & _)];
    [by left|right].
  exists sf. split; [exact H|]. rewrite Hv. unfold Spec.read_version.
  fold markers numbers.
  split; [|split; [|split]].
  - intros Hne. apply taken_first in Hne.
    destruct (last (Spec.taken 0 markers)) as [ds|] eqn:E.
    + exists ds. split; [done|]. intros Hz. by rewrite stored_version_nonzero.
    + by apply last_None in E.
  - intros before i ds n E Hc Hz. rewrite E.
    rewrite (taken_rightmost before i ds n Hc).
    by rewrite stored_version_nonzero.
  - intros E ds Hds Hz. rewrite E. simpl. rewrite Hds.
    by rewrite stored_version_nonzero.
  - intros E1 E2. by rewrite E1, E2.
Qed.

Lemma version_inference_witness :
  exists sf,
    SceneFile.from_existing (lit "aweber") (lit "char_mdl_rig_v003.ma") = Ok sf /\
    sf !! "version" = Some (VInt 3).
Proof.
  destruct (version_inference (lit "aweber") (lit "char_mdl_rig_v003.ma"))
    as [[H _]|(sf & H & _ & H2 & _)].
  - vm_compute in H. discriminate H.
  - exists sf. split; [exact H|].
    apply (H2 [] 12 (lit "003") 6); vm_compute; [reflexivity|reflexivity|discriminate].
Defined.

(** C1 as stated fails: of two markers that share a separator the second
    is not read. *)
Lemma version_inference_counterexample :
  exists sf,
    SceneFile.from_existing (lit "aweber") (lit "plate_v1_v2_aw.ma") = Ok sf /\
    sf !! "version" = Some (VInt 1) /\
    Spec.rightmost_version (lit "plate_v1_v2_aw.ma") = 2%Z.
Proof.
  eexists; (split; [reflexivity|]); split; vm_compute; reflexivity.
Qed.

(** C2 (as amended).  The discipline of the descriptor is the code, in
    upper case, of the last occurrence taken by a left-to-right reader
    that passes over an occurrence starting inside the one it took before;
    this is the right-most occurrence whenever that one is clear of the
    occurrences before it.  When no code occurs the discipline is [MDL]. *)
Theorem discipline_inference (login s : pystr) :
  let codes := Spec.all_occurrences Spec.code_here s in
  (SceneFile.from_existing login s = Raise IndexError /\
   Spec.read_user s = None /\
   SceneFile.default_user login = Raise IndexError) \/
  (exists sf,
     SceneFile.from_existing login s = Ok sf /\
     (codes <> [] ->
      exists d,
        last (Spec.taken 0 codes) = Some d /\
        In d SceneFile.disciplines /\
        sf !! "discipline" = Some (VStr d)) /\
     (forall before i d n,
        codes = before ++ [(i, d, n)] ->
        Spec.clear_of before i = true ->
        sf !! "discipline" = Some (VStr d)) /\
     (codes = [] -> sf !! "discipline" = Some (VStr (lit "MDL")))).
Proof.
  intros codes.
  destruct (from_existing_outcome login s) as [H|(sf & user & H & _ & _ & Hd & _)];
    [by left|right].
  exists sf. split; [exact H|]. rewrite Hd. unfold Spec.read_discipline.
  fold codes. repeat split.
  - intros Hne. apply taken_first in Hne.
    destruct (last (Spec.taken 0 codes)) as [d|] eqn:E.
    + exists d. repeat split.
      assert (Forall (fun d => In d SceneFile.disciplines) (Spec.taken 0 codes)) as F.
      { unfold codes. rewrite <- findall_taken.
        - apply scan_Forall. intros prev s' x n. unfold Spec.code_here.
          destruct (List.find _ _) as [d'|] eqn:E'; [|done].
          intros [= <- _]. by apply find_some in E' as [? _].
        - intros prev s' x n Hx. by apply code_here_consumes in Hx as [? _]. }
      exact (last_Forall _ _ _ F E).
    + by apply last_None in E.
  - intros before i d n E Hc. rewrite E.
    by rewrite (taken_rightmost before i d n Hc).
  - intros E. by rewrite E.
Qed.

Lemma discipline_inference_witness :
  exists sf,
    SceneFile.from_existing (lit "aweber") (lit "char_mdl_rig_v003.ma") = Ok sf /\
    sf !! "discipline" = Some (VStr (lit "RIG")).
Proof.
  destruct (discipline_inference (lit "aweber") (lit "char_mdl_rig_v003.ma"))
    as [[H _]|(sf & H & _ & H2 & _)].
  - vm_compute in H. discriminate H.
  - exists sf. split; [exact H|].
    apply (H2 [(5, lit "MDL", 3)] 9 (lit "RIG") 3); vm_compute; reflexivity.
Defined.

(** C2 as stated fails: the right-most code starts inside the code read
    before it. *)
Lemma discipline_inference_counterexample :
  (exists sf,
     SceneFile.from_existing (lit "aweber") (lit "char_techanim_v001.ma") = Ok sf /\
     sf !! "discipline" = Some (VStr (lit "TECHANIM")) /\
     Spec.rightmost_discipline (lit "char_techanim_v001.ma") = lit "ANIM") /\
  (exists sf,
     SceneFile.from_existing (lit "aweber") (lit "previshading_v001.ma") = Ok sf /\
     sf !! "discipline" = Some (VStr (lit "PREVIS")) /\
     Spec.rightmost_discipline (lit "previshading_v001.ma") = lit "SHADING").
Proof.
  split; eexists; (split; [reflexivity|]); split; vm_compute; reflexivity.
Qed.

(** In a file name without [^] and [$] the tokens that the pattern reads
    are the tokens between separators. *)
Lemma one_of_not_anchor_left c :
  Str.one_of "^$" c = false -> Str.one_of "._^" c = Str.one_of "._" c.
Proof.
  unfold Str.one_of. cbn [lit list_ascii_of_string existsb].
  rewrite !orb_false_r. intros [-> _]%orb_false_iff. by rewrite orb_false_r.
Qed.

Lemma one_of_not_anchor_right c :
  Str.one_of "^$" c = false -> Str.one_of "._$" c = Str.one_of "._" c.
Proof.
  unfold Str.one_of. cbn [lit list_ascii_of_string existsb].
  rewrite !orb_false_r. intros [_ ->]%orb_false_iff. by rewrite orb_false_r.
Qed.

Lemma token_here_separated prev s :
  forallb (fun c => negb (Str.one_of "^$" c)) s = true ->
  Spec.token_here prev s = Spec.separated_token_here prev s.
Proof.
  unfold Spec.token_here, Spec.separated_token_here, Spec.token_between.
  destruct s as [|c0 [|a [|b [|c3 t]]]]; try done.
  cbn [forallb]. rewrite !andb_true_iff, !negb_true_iff.
  intros (H0 & _ & _ & H3 & _).
  by rewrite (one_of_not_anchor_left c0 H0), (one_of_not_anchor_right c3 H3).
Qed.

Lemma occurrences_separated s : forall i prev,
  forallb (fun c => negb (Str.one_of "^$" c)) s = true ->
  Spec.occurrences Spec.token_here i prev s =
  Spec.occurrences Spec.separated_token_here i prev s.
Proof.
  induction s as [|c t IH]; intros i prev H.
  - done.
  - cbn [Spec.occurrences]. rewrite (token_here_separated prev (c :: t) H).
    f_equal. apply IH. cbn [forallb] in H. by apply andb_true_iff in H as [_ ?].
Qed.

(** C3 (as amended).  For a file name that holds neither [^] nor [$], the
    author stored in the descriptor (attribute [user]) is, in lower case,
    the last token that is not a discipline code among the two-character
    tokens taken by a left-to-right reader; a token is two word characters
    with a separator, [.] or [_], on either side, an occurrence spans both
    separators, and the reader passes over an occurrence that starts before
    the end of the one it took before.  This is the right-most token that
    is not a discipline code whenever its occurrence is clear of all the
    occurrences before it.  When there is no such token the author is made
    of the first letter of the login name and the first letter of its last
    dash-separated part, and the constructor raises [IndexError] when the
    login name has none. *)
Theorem user_inference (login s : pystr) :
  let toks := Spec.all_occurrences Spec.separated_token_here s in
  let author :=
    last (List.filter (fun tok => negb (Spec.is_discipline tok))
                      (Spec.taken 0 toks)) in
  forallb (fun c => negb (Str.one_of "^$" c)) s = true ->
  (forall tok,
     author = Some tok ->
     exists sf,
       SceneFile.from_existing login s = Ok sf /\
       sf !! "user" = Some (VStr (Str.lower tok))) /\
  (forall before i tok n after,
     toks = before ++ (i, tok, n) :: after ->
     Spec.clear_of before i = true ->
     Spec.is_discipline tok = false ->
     forallb Spec.is_discipline (Spec.tokens after) = true ->
     exists sf,
       SceneFile.from_existing login s = Ok sf /\
       sf !! "user" = Some (VStr (Str.lower tok))) /\
  (author = None ->
   forall v,
     SceneFile.default_user login = Ok v ->
     exists sf,
       SceneFile.from_existing login s = Ok sf /\ sf !! "user" = Some v) /\
  (author = None ->
   SceneFile.default_user login = Raise IndexError ->
   SceneFile.from_existing login s = Raise IndexError).
Proof.
  intros toks author Hs.
  assert (Spec.read_user s =
          match author with Some tok => Some (Str.lower tok) | None => None end)
    as Hread.
  { unfold Spec.read_user, Spec.all_occurrences.
    by rewrite (occurrences_separated s 0 None Hs). }
  assert (forall tok, author = Some tok ->
            exists sf, SceneFile.from_existing login s = Ok sf /\
                       sf !! "user" = Some (VStr (Str.lower tok))) as Hsome.
  { intros tok E.
    destruct (from_existing_outcome login s)
      as [(_ & Hn & _)|(sf & user & H & Hu & _ & _ & Hsf & _)].
    - rewrite Hread, E in Hn. discriminate Hn.
    - rewrite Hread, E in Hu. subst user. by exists sf. }
  split; [exact Hsome|split; [|split]].
  - intros before i tok n after E Hc Hd Ha. apply Hsome. unfold author.
    rewrite E. apply taken_rightmost_kept; [done|by rewrite Hd|].
    rewrite forallb_forall in Ha |- *. intros y Hy.
    by rewrite (Ha y Hy).
  - intros E v Hv.
    destruct (from_existing_outcome login s)
      as [(_ & _ & Hr)|(sf & user & H & Hu & _ & _ & Hsf & _)].
    + by rewrite Hv in Hr.
    + rewrite Hread, E in Hu. exists sf. split; [done|]. congruence.
  - intros E Hr.
    destruct (from_existing_outcome login s)
      as [(H & _)|(sf & user & H & Hu & _)]; [done|].
    rewrite Hread, E in Hu. congruence.
Qed.

Lemma user_inference_witness :
  exists sf,
    SceneFile.from_existing (lit "aweber") (lit "char_rig_aw_v2.ma") = Ok sf /\
    sf !! "user" = Some (VStr (lit "aw")).
Proof.
  destruct (user_inference (lit "aweber") (lit "char_rig_aw_v2.ma"))
    as (H & _); [vm_compute; reflexivity|].
  apply (H (lit "aw")). vm_compute. reflexivity.
Defined.

(** C3 as stated fails: a token that starts on the closing separator of
    the token read before it is not read; and without a token the author
    comes from the login name. *)
Lemma user_inference_counterexample :
  (exists sf,
     SceneFile.from_existing (lit "aweber") (lit "char_rig_aw_v2.ma") = Ok sf /\
     sf !! "user" = Some (VStr (lit "aw")) /\
     Spec.rightmost_user (lit "char_rig_aw_v2.ma") = lit "v2") /\
  (exists sf,
     SceneFile.from_existing (lit "aweber") (lit "scene.ma") = Ok sf /\
     sf !! "user" = Some (VStr (lit "aa")) /\
     Spec.rightmost_user (lit "scene.ma") = []).
Proof.
  split; eexists; (split; [reflexivity|]); split; vm_compute; reflexivity.
Qed.

(** * The extension *)

Lemma rfind_from_rsplit c p : forall i found,
  os_path.rfind_from c i found p =
  match Spec.rsplit c p with
  | Some (a, _) => (i + Z.of_nat (length a))%Z
  | None => found
  end.
Proof.
  induction p as [|x t IH]; intros i found; simpl; [done|].
  rewrite IH. destruct (Spec.rsplit c t) as [[a b]|]; simpl.
  - lia.
  - destruct (Ascii.eqb x c); simpl; lia.
Qed.

Lemma rfind_rsplit c p :
  os_path.rfind c p =
  match Spec.rsplit c p with
  | Some (a, _) => Z.of_nat (length a)
  | None => (-1)%Z
  end.
Proof.
  unfold os_path.rfind. rewrite rfind_from_rsplit.
  by destruct (Spec.rsplit c p) as [[a b]|].
Qed.

Lemma rsplit_Some c s a b :
  Spec.rsplit c s = Some (a, b) -> s = a ++ c :: b /\ Spec.rsplit c b = None.
Proof.
  revert a. induction s as [|x t IH]; intros a; simpl; [done|].
  destruct (Spec.rsplit c t) as [[a' b']|] eqn:E.
  - intros [= <- <-]. destruct (IH a' eq_refl) as [-> H]. by split.
  - destruct (Ascii.eqb_spec x c) as [->|]; [|done].
    intros [= <- <-]. by split.
Qed.

Lemma rsplit_None c s :
  Spec.rsplit c s = None <-> existsb (fun x => Ascii.eqb x c) s = false.
Proof.
  induction s as [|x t IH]; simpl; [done|].
  destruct (Spec.rsplit c t) as [[a b]|].
  - split; [done|]. intros H. apply orb_false_iff in H as [_ H].
    by apply IH in H.
  - destruct (Ascii.eqb x c); simpl; [done|]. split; [|done].
    intros _. by apply IH.
Qed.

Lemma rsplit_app_r c a b x y :
  Spec.rsplit c b = Some (x, y) -> Spec.rsplit c (a ++ b) = Some (a ++ x, y).
Proof.
  intros H. induction a as [|z a IH]; simpl; [done|]. by rewrite IH.
Qed.

Lemma rsplit_app_l c a b :
  Spec.rsplit c b = None ->
  Spec.rsplit c (a ++ b) =
  match Spec.rsplit c a with
  | Some (x, y) => Some (x, y ++ b)
  | None => None
  end.
Proof.
  intros H. induction a as [|z a IH]; simpl; [done|]. rewrite IH.
  destruct (Spec.rsplit c a) as [[x y]|]; [done|].
  by destruct (Ascii.eqb z c).
Qed.

Lemma replace_dot s :
  Str.replace (lit ".") [] s = List.filter (fun c => negb (Spec.is_dot c)) s.
Proof.
  unfold Str.replace. induction s as [|c t IH]; simpl; [done|].
  unfold Str.starts_with, Str.eqb, Spec.is_dot. simpl. rewrite take_0.
  destruct (Ascii.eqb_spec c "."%char) as [->|Hc]; simpl.
  - exact IH.
  - rewrite bool_decide_eq_false_2 by congruence. f_equal. exact IH.
Qed.

Lemma filter_no_dot s :
  Spec.rsplit "."%char s = None ->
  List.filter (fun c => negb (Spec.is_dot c)) s = s.
Proof.
  intros H%rsplit_None. apply filter_all.
  induction s as [|c t IH]; [constructor|].
  simpl in H. apply orb_false_iff in H as [H1 H2].
  constructor; [|by apply IH]. unfold Spec.is_dot. by rewrite H1.
Qed.

Lemma existsb_slash s :
  existsb Spec.is_slash s =
  match Spec.rsplit "/"%char s with Some _ => true | None => false end.
Proof.
  destruct (Spec.rsplit "/"%char s) as [[a b]|] eqn:E.
  - destruct (existsb Spec.is_slash s) eqn:F; [done|].
    apply rsplit_None in F. congruence.
  - by apply rsplit_None in E.
Qed.

Lemma existsb_not_dot s :
  existsb (fun c => negb (Ascii.eqb c "."%char)) s = negb (forallb Spec.is_dot s).
Proof.
  induction s as [|c t IH]; simpl; [done|].
  rewrite IH, negb_andb. done.
Qed.

Lemma findExt_extension s : SceneFile._findExt s = Spec.extension_of s.
Proof.
  unfold SceneFile._findExt, Spec.extension_of.
  destruct s as [|c0 s0]; [done|]. set (s := c0 :: s0).
  unfold os_path.splitext. rewrite !rfind_rsplit.
  destruct (Spec.rsplit "."%char s) as [[stem ext]|] eqn:Ed.
  - apply rsplit_Some in Ed as [Es Hext]. rewrite existsb_slash.
    destruct (Spec.rsplit "/"%char ext) as [[a b]|] eqn:Esl.
    + assert (Spec.rsplit "/"%char s = Some (stem ++ "."%char :: a, b)) as ->.
      { rewrite Es. apply rsplit_app_r. simpl. by rewrite Esl. }
      replace (_ <? _)%Z with false; [done|].
      symmetry. apply Z.ltb_ge. rewrite length_app. simpl. lia.
    + assert (Spec.rsplit "/"%char s =
              match Spec.rsplit "/"%char stem with
              | Some (x, y) => Some (x, y ++ "."%char :: ext)
              | None => None
              end) as ->.
      { rewrite Es. apply rsplit_app_l. simpl. by rewrite Esl. }
      assert (os_path.slice s
                (match Spec.rsplit "/"%char stem with
                 | Some (x, _) => Z.of_nat (length x)
                 | None => -1
                 end + 1) (Z.of_nat (length stem)) = Spec.last_component stem)
        as Hslice.
      { unfold os_path.slice, Spec.last_component. rewrite Es.
        destruct (Spec.rsplit "/"%char stem) as [[x y]|] eqn:E1.
        - apply rsplit_Some in E1 as [-> _].
          replace (Z.to_nat (Z.of_nat (length x) + 1)) with (length (x ++ ["/"%char]))
            by (rewrite length_app; simpl; lia).
          replace ((x ++ "/"%char :: y) ++ "."%char :: ext)
            with ((x ++ ["/"%char]) ++ y ++ "."%char :: ext)
            by (by rewrite <- !app_assoc).
          rewrite drop_app_length.
          replace (_ - _) with (length y)
            by (rewrite !length_app; simpl; lia).
          by rewrite take_app_length.
        - simpl. rewrite drop_0, Nat.sub_0_r, Nat2Z.id.
          by rewrite take_app_length. }
      simpl orb.
      assert ((match
                 match Spec.rsplit "/"%char stem with
                 | Some (x, y) => Some (x, y ++ "."%char :: ext)
                 | None => None
                 end
               with
               | Some (a, _) => Z.of_nat (length a)
               | None => -1
               end)%Z =
              (match Spec.rsplit "/"%char stem with
               | Some (x, _) => Z.of_nat (length x)
               | None => -1
               end)%Z) as ->.
      { by destruct (Spec.rsplit "/"%char stem) as [[x y]|]. }
      rewrite Hslice, existsb_not_dot.
      replace (_ <? _)%Z with true.
      * destruct (forallb Spec.is_dot (Spec.last_component stem)); simpl; [done|].
        rewrite Nat2Z.id, Es, drop_app_length, replace_dot. simpl.
        rewrite filter_no_dot by done. by destruct ext.
      * symmetry. apply Z.ltb_lt.
        destruct (Spec.rsplit "/"%char stem) as [[x y]|] eqn:E1; [|lia].
        apply rsplit_Some in E1 as [-> _]. rewrite length_app. simpl. lia.
  - replace (_ <? _)%Z with false; [done|].
    symmetry. apply Z.ltb_ge.
    destruct (Spec.rsplit "/"%char s) as [[a b]|]; lia.
Qed.

Lemma rsplit_at c stem ext :
  Spec.rsplit c ext = None -> Spec.rsplit c (stem ++ c :: ext) = Some (stem, ext).
Proof.
  intros H. rewrite (rsplit_app_r c stem (c :: ext) [] ext).
  - by rewrite app_nil_r.
  - simpl. by rewrite H, Ascii.eqb_refl.
Qed.

(** C6 (as amended).  [from_existing] does not infer the extension: the
    descriptor it returns always carries the default [ma].  The extension
    is inferred by [_findExt], which [from_existing] does not call: it
    returns what follows the final dot when that dot lies in the last path
    component and has a character other than a dot before it there, and
    [ma] for an empty name, a name without such a dot and an empty
    extension. *)
Theorem extension_inference (login s : pystr) :
  ((SceneFile.from_existing login s = Raise IndexError /\
    Spec.read_user s = None /\
    SceneFile.default_user login = Raise IndexError) \/
   (exists sf,
      SceneFile.from_existing login s = Ok sf /\
      sf !! "extension" = Some (VStr (lit "ma")))) /\
  SceneFile._findExt s = Spec.extension_of s /\
  (s = [] -> SceneFile._findExt s = lit "ma") /\
  (Spec.rsplit "."%char s = None -> SceneFile._findExt s = lit "ma") /\
  (forall stem ext,
     s = stem ++ "."%char :: ext ->
     existsb Spec.is_dot ext = false ->
     existsb Spec.is_slash ext = false ->
     forallb Spec.is_dot (Spec.last_component stem) = false ->
     SceneFile._findExt s = Spec.or_ma ext).
Proof.
  split; [|rewrite findExt_extension; repeat split].
  - destruct (from_existing_outcome login s)
      as [H|(sf & user & H & _ & _ & _ & _ & He & _)]; [by left|right].
    by exists sf.
  - by intros ->.
  - unfold Spec.extension_of. by intros ->.
  - intros stem ext -> Hd Hs Hl. unfold Spec.extension_of.
    rewrite (rsplit_at "."%char stem ext) by (by apply rsplit_None).
    by rewrite Hs, Hl.
Qed.

Lemma extension_inference_witness :
  SceneFile._findExt (lit "char_mdl_rig_v003.mb") = lit "mb".
Proof.
  destruct (extension_inference (lit "aweber") (lit "char_mdl_rig_v003.mb"))
    as (_ & _ & _ & _ & H).
  apply (H (lit "char_mdl_rig_v003") (lit "mb")); vm_compute; reflexivity.
Defined.

(** C6 as stated fails: the descriptor of [foo.mb] has the extension
    [ma]. *)
Lemma extension_inference_counterexample :
  exists sf,
    SceneFile.from_existing (lit "aweber") (lit "foo.mb") = Ok sf /\
    sf !! "extension" = Some (VStr (lit "ma")) /\
    Spec.after_final_dot (lit "foo.mb") = lit "mb".
Proof.
  eexists. split; [reflexivity|]. split; vm_compute; reflexivity.
Qed.

(** * The current directory *)

Section DirectoryFacts.
Context {authority : contexts.Authority}.

Lemma put_current (d : gmap pystr value) (key : string) (arg : value) :
  Spec.available d key arg = true ->
  exists v,
    (if truthy arg then Ok arg else Directory.getitem d (lit key)) = Ok v /\
    <[lit key := v]> d = (if truthy arg then <[lit key := arg]> d else d).
Proof.
  unfold Spec.available, Directory.getitem.
  destruct (truthy arg); simpl.
  - intros _. by exists arg.
  - intros [v Hv]%bool_decide_eq_true. exists v. rewrite Hv.
    split; [done|]. by apply insert_id.
Qed.

Lemma available_put (d : gmap pystr value) (k1 k2 : string) (a1 a2 : value) :
  lit k1 <> lit k2 ->
  Spec.available (if truthy a1 then <[lit k1 := a1]> d else d) k2 a2 =
  Spec.available d k2 a2.
Proof.
  intros Hne. unfold Spec.available. destruct (truthy a1); [|done].
  by rewrite lookup_insert_ne.
Qed.

Lemma unavailable_raises (d : gmap pystr value) (key : string) (arg : value) :
  Spec.available d key arg = false ->
  (if truthy arg then Ok arg else Directory.getitem d (lit key)) =
  Raise (KeyError (lit key)).
Proof.
  unfold Spec.available, Directory.getitem.
  destruct (truthy arg); simpl; [done|].
  intros H%bool_decide_eq_false. destruct (d !! lit key); [|done].
  exfalso. apply H. by eexists.
Qed.

(** C7.  [set_cur_dir] is a transaction on the context.  The candidate is
    the given dictionary or, without one, the current fields overlaid by
    the supplied ones.  When the candidate does not validate, the call
    returns [False] and the object is as before; when it validates, the
    call returns [True] and the candidate is the context.  When a field is
    neither supplied nor current, the call raises and the object is as
    before. *)
Theorem set_cur_dir_transactional (self : Directory.t)
    (job shot scene : value) (from_dict : option (gmap pystr value)) :
  let current := contexts.as_dict (Directory.context self) in
  let candidate :=
    contexts.Shot_fromDict
      match Directory.given_dict from_dict with
      | Some d => d
      | None => Spec.overlay current job shot scene
      end in
  let complete :=
    Spec.available current "job" job && Spec.available current "shot" shot
    && Spec.available current "scene" scene in
  ((Directory.given_dict from_dict = None -> complete = true) ->
   (contexts.validateContext candidate = false ->
    Directory.set_cur_dir self job shot scene from_dict = (Ok false, self)) /\
   (contexts.validateContext candidate = true ->
    Directory.set_cur_dir self job shot scene from_dict =
    (Ok true, Directory.Build candidate (Directory.tree_cache self)))) /\
  (Directory.given_dict from_dict = None -> complete = false ->
   exists key,
     Directory.set_cur_dir self job shot scene from_dict =
     (Raise (KeyError key), self)).
Proof.
  intros current candidate complete.
  unfold Directory.set_cur_dir, Directory.validate, Directory.set_context.
  destruct self as [ctx cache].
  cbn [Directory.context Directory.tree_cache] in *.
  destruct (Directory.given_dict from_dict) as [d|] eqn:Eg.
  - split; [|done]. intros _. subst candidate.
    cbn [Directory.context Directory.tree_cache].
    split; intros ->; done.
  - fold current. split.
    + intros Hc. specialize (Hc eq_refl). subst complete.
      apply andb_true_iff in Hc as [Hc Hscene].
      apply andb_true_iff in Hc as [Hjob Hshot].
      destruct (put_current current "job" job Hjob) as (j & Hj & Ej).
      rewrite Hj. step_bind. rewrite Ej.
      rewrite <- (available_put current "job" "shot" job shot) in Hshot by done.
      destruct (put_current _ "shot" shot Hshot) as (sh & Hsh & Esh).
      rewrite Hsh. step_bind. rewrite Esh.
      rewrite <- (available_put current "job" "scene" job scene) in Hscene by done.
      rewrite <- (available_put _ "shot" "scene" shot scene) in Hscene by done.
      destruct (put_current _ "scene" scene Hscene) as (sc & Hsc & Esc).
      rewrite Hsc. step_bind. rewrite Esc.
      subst candidate. unfold Spec.overlay. cbv beta zeta.
      split; intros ->; done.
    + intros _ Hc. subst complete.
      destruct (Spec.available current "job" job) eqn:Hjob.
      * destruct (put_current current "job" job Hjob) as (j & Hj & Ej).
        rewrite Hj. step_bind. rewrite Ej.
        rewrite <- (available_put current "job" "shot" job shot) in Hc by done.
        destruct (Spec.available _ "shot" shot) eqn:Hshot.
        -- destruct (put_current _ "shot" shot Hshot) as (sh & Hsh & Esh).
           rewrite Hsh. step_bind. rewrite Esh. simpl in Hc.
           rewrite <- (available_put current "job" "scene" job scene) in Hc by done.
           rewrite <- (available_put _ "shot" "scene" shot scene) in Hc by done.
           rewrite (unavailable_raises _ "scene" scene Hc). by eexists.
        -- rewrite (unavailable_raises _ "shot" shot Hshot). by eexists.
      * rewrite (unavailable_raises _ "job" job Hjob). by eexists.
Qed.

Lemma set_cur_dir_keeps_cache (self : Directory.t) job shot scene from_dict :
  Directory.tree_cache (Directory.set_cur_dir self job shot scene from_dict).2 =
  Directory.tree_cache self.
Proof.
  unfold Directory.set_cur_dir.
  destruct (match Directory.given_dict from_dict with
            | Some d => _ | None => _ end) as [c|e]; [|done].
  by destruct (negb _).
Qed.

(** X24.  After a validated change of job the readers look the new job up
    in a cache that only has the old one, and raise [KeyError]. *)
Lemma job_switch_breaks_readers (self : Directory.t) (job shot scene : value)
    (from_dict : option (gmap pystr value)) (old_job : pystr)
    (scenes : gmap pystr (list pystr)) :
  let after := (Directory.set_cur_dir self job shot scene from_dict).2 in
  let new_job := contexts.name (contexts.job (Directory.context after)) in
  Directory.tree_cache self = {[old_job := scenes]} ->
  new_job <> old_job ->
  forall filter scene_name,
    (Directory.get_scenes after filter).1 = Raise (KeyError new_job) /\
    (Directory.get_shots after scene_name filter).1 = Raise (KeyError new_job).
Proof.
  intros after new_job Hc Hne filter scene_name.
  unfold Directory.get_scenes, Directory.get_shots, Directory.getitem.
  cbn [fst]. fold new_job.
  assert (Directory.tree_cache after !! new_job = None) as ->; [|done].
  unfold after. rewrite set_cur_dir_keeps_cache, Hc.
  by apply lookup_singleton_ne.
Qed.

End DirectoryFacts.

Lemma set_cur_dir_transactional_witness :
  let d0 := @Directory.__init__ Studio.authority
              (Directory.InDict (Studio.context_of "alpha" "build" "char_a")) in
  Directory.set_cur_dir d0 VNone (VStr (lit "no_such_shot")) VNone None =
  (Ok false, d0).
Proof.
  intros d0.
  destruct (@set_cur_dir_transactional Studio.authority d0
              VNone (VStr (lit "no_such_shot")) VNone None) as [H _].
  apply H.
  - intros _. vm_compute. reflexivity.
  - vm_compute. reflexivity.
Defined.

(** C8.  A successful [set_cur_dir] to another job leaves the cache of
    the old job in place: the cache has no entry for the new job and the
    readers raise [KeyError]. *)
Theorem job_switch_keeps_old_cache :
  let d0 := @Directory.__init__ Studio.authority
              (Directory.InDict (Studio.context_of "alpha" "build" "char_a")) in
  let r := Directory.set_cur_dir d0 (VStr (lit "beta")) (VStr (lit "sh02"))
                                 (VStr (lit "shots")) None in
  r.1 = Ok true /\
  contexts.name (contexts.job (Directory.context r.2)) = lit "beta" /\
  Directory.tree_cache r.2 = Directory.tree_cache d0 /\
  is_Some (Directory.tree_cache r.2 !! lit "alpha") /\
  Directory.tree_cache r.2 !! lit "beta" = None /\
  (Directory.get_scenes r.2 []).1 = Raise (KeyError (lit "beta")) /\
  (Directory.get_shots r.2 (lit "shots") []).1 = Raise (KeyError (lit "beta")).
Proof.
  intros d0 r. repeat split; try (vm_compute; reflexivity).
  vm_compute. by eexists.
Qed.

(** * The cached tree *)

Section TreeFacts.
Context {authority : contexts.Authority}.

Lemma set_tree_cache_build (ctx : contexts.Context)
    (tc tc' : gmap pystr (gmap pystr (list pystr))) :
  Directory.set_tree_cache tc' (Directory.Build ctx tc) = Directory.Build ctx tc'.
Proof. done. Qed.

Lemma cache_shots (ctx : contexts.Context) (jn sn : pystr) (m0 : gmap pystr (list pystr))
    (shots : list contexts.node) : forall acc : list pystr,
  fold_left
    (fun self shot =>
       Directory.set_tree_cache
         (alter (alter (fun l => l ++ [contexts.name shot]) sn) jn
                (Directory.tree_cache self)) self)
    shots (Directory.Build ctx {[jn := <[sn := acc]> m0]}) =
  Directory.Build ctx {[jn := <[sn := acc ++ map contexts.name shots]> m0]}.
Proof.
  induction shots as [|shot shots IH]; intros acc; simpl.
  - by rewrite app_nil_r.
  - rewrite set_tree_cache_build, alter_singleton_eq, alter_insert_eq, IH.
    by rewrite <- app_assoc.
Qed.

Lemma cache_scenes (ctx : contexts.Context) (jn : pystr) (scenes : list contexts.node) : forall m0,
  fold_left
    (fun self scene =>
       if negb (Directory.py_in (contexts.name scene) Directory.scene_ignore_list)
       then
         let self :=
           Directory.set_tree_cache
             (alter (insert (contexts.name scene) []) jn
                    (Directory.tree_cache self)) self in
         fold_left
           (fun self shot =>
              Directory.set_tree_cache
                (alter (alter (fun shots => shots ++ [contexts.name shot])
                              (contexts.name scene))
                       jn (Directory.tree_cache self)) self)
           (contexts.findChildren scene) self
       else self)
    scenes (Directory.Build ctx {[jn := m0]}) =
  Directory.Build ctx {[jn := fold_left cache_scene scenes m0]}.
Proof.
  induction scenes as [|sc scenes IH]; intros m0; [done|].
  cbn [fold_left]. unfold cache_scene at 2.
  destruct (Directory.py_in (contexts.name sc) Directory.scene_ignore_list).
  - apply IH.
  - cbn [negb]. cbv zeta.
    rewrite set_tree_cache_build. cbn [Directory.tree_cache].
    rewrite alter_singleton_eq, cache_shots. apply IH.
Qed.

Lemma py_in_false x l y :
  Directory.py_in x l = false -> Directory.py_in y l = true -> x <> y.
Proof. intros H1 H2 ->. congruence. Qed.

Lemma cached_scenes_lookup (scenes : list contexts.node) : forall m0 nm,
  fold_left cache_scene scenes m0 !! nm =
  match Spec.cached_shots scenes nm with
  | Some shots => Some shots
  | None => m0 !! nm
  end.
Proof.
  induction scenes as [|sc scenes IH]; intros m0 nm.
  - unfold Spec.cached_shots. cbn [List.filter fold_left].
    by destruct (Directory.py_in nm Directory.scene_ignore_list).
  - cbn [fold_left]. rewrite IH. unfold Spec.cached_shots, cache_scene.
    cbn [List.filter]. unfold Str.eqb.
    destruct (Directory.py_in nm Directory.scene_ignore_list) eqn:Hnm.
    + destruct (Directory.py_in (contexts.name sc) _) eqn:Hsc; [done|].
      rewrite lookup_insert_ne; [done|]. by eapply py_in_false.
    + destruct (bool_decide (contexts.name sc = nm)) eqn:E.
      * apply bool_decide_eq_true in E. subst nm. rewrite Hnm, last_cons.
        destruct (last _); [done|]. by rewrite lookup_insert_eq.
      * apply bool_decide_eq_false in E.
        destruct (last _); [done|].
        destruct (Directory.py_in (contexts.name sc) _); [done|].
        by rewrite lookup_insert_ne.
Qed.

Lemma py_in_app x l1 l2 :
  Directory.py_in x (l1 ++ l2) = Directory.py_in x l1 || Directory.py_in x l2.
Proof. apply existsb_app. Qed.

(** C9 (as amended).  The cache stored by [refresh_tree] has the job's
    name as its only key; below it no scene key is on the scene-ignore
    list, and each scene key holds the names of all the children of the
    scene, those on the shot-ignore list included.  The shot-ignore list
    is applied when the cache is read: no name on it is among the shots
    that [get_shots] returns. *)
Theorem refresh_tree_cache (self : Directory.t) :
  let job := contexts.job (Directory.context self) in
  exists scenes,
    Directory.tree_cache (Directory.refresh_tree self) =
      {[contexts.name job := scenes]} /\
    Directory.context (Directory.refresh_tree self) = Directory.context self /\
    (forall nm,
       scenes !! nm = Spec.cached_shots (contexts.findChildren job) nm) /\
    (forall nm shots,
       scenes !! nm = Some shots ->
       Directory.py_in nm Directory.scene_ignore_list = false) /\
    (forall nm filter shots,
       (Directory.get_shots (Directory.refresh_tree self) nm filter).1 =
         Ok (Some shots) ->
       forall x, In x shots ->
         Directory.py_in x Directory.shot_ignore_list = false).
Proof.
  intros job.
  exists (fold_left cache_scene (contexts.findChildren job) ∅).
  assert (Directory.refresh_tree self =
          Directory.Build (Directory.context self)
            {[contexts.name job := fold_left cache_scene (contexts.findChildren job) ∅]})
    as E.
  { subst job. destruct self as [ctx tc]. unfold Directory.refresh_tree.
    cbv zeta. cbn [Directory.context].
    rewrite set_tree_cache_build. cbn [Directory.tree_cache].
    rewrite set_tree_cache_build, insert_empty. apply cache_scenes. }
  rewrite E. cbn [Directory.tree_cache Directory.context].
  assert (forall nm,
            fold_left cache_scene (contexts.findChildren job) ∅ !! nm =
            Spec.cached_shots (contexts.findChildren job) nm) as Hl.
  { intros nm. rewrite cached_scenes_lookup, lookup_empty.
    by destruct (Spec.cached_shots _ nm). }
  repeat split.
  - exact Hl.
  - intros nm shots. rewrite Hl. unfold Spec.cached_shots.
    by destruct (Directory.py_in nm Directory.scene_ignore_list).
  - intros nm filter shots. unfold Directory.get_shots, Directory.getitem.
    cbn [fst Directory.tree_cache Directory.context]. fold job.
    rewrite lookup_singleton_eq. unfold mbind, result_bind.
    destruct (_ !! nm) as [l|]; [|done]. intros [= <-] x Hx.
    apply filter_In in Hx as [_ Hx]. apply negb_true_iff in Hx.
    rewrite py_in_app in Hx. by apply orb_false_iff in Hx as [_ ?].
Qed.

End TreeFacts.

Lemma refresh_tree_cache_witness :
  let d0 := @Directory.__init__ Studio.authority
              (Directory.InDict (Studio.context_of "alpha" "build" "char_a")) in
  Directory.py_in (lit "shots") Directory.scene_ignore_list = false.
Proof.
  intros d0.
  destruct (@refresh_tree_cache Studio.authority d0) as (scenes & _ & _ & Hl & H & _).
  apply (H (lit "shots") [lit "sh01"]).
  rewrite Hl. vm_compute. reflexivity.
Defined.

(** C9 as stated fails: the cache of job alpha lists the shot [config],
    which is on the shot-ignore list. *)
Lemma refresh_tree_cache_counterexample :
  let d0 := @Directory.__init__ Studio.authority
              (Directory.InDict (Studio.context_of "alpha" "build" "char_a")) in
  exists scenes,
    Directory.tree_cache d0 !! lit "alpha" = Some scenes /\
    scenes !! lit "build" = Some [lit "char_a"; lit "config"] /\
    Directory.py_in (lit "config") Directory.shot_ignore_list = true.
Proof.
  intros d0. eexists. split; [vm_compute; reflexivity|].
  split; vm_compute; reflexivity.
Qed.

(** * Rendering *)

Lemma py_or_int version :
  Spec.int_or_none version -> exists z, py_or version (VInt 1) = VInt z.
Proof.
  intros [->|[z ->]]; [by exists 1%Z|].
  unfold py_or. simpl. destruct (z =? 0)%Z; by eexists.
Qed.

Lemma init_shape login description discipline version user optional extension sf :
  Spec.int_or_none version ->
  SceneFile.__init__ login description discipline version user optional
    extension = Ok sf ->
  descriptor_shape sf.
Proof.
  intros Hv. unfold SceneFile.__init__, mbind, result_bind.
  destruct (py_or_int version Hv) as [z Hz]. rewrite Hz.
  destruct (if truthy user then Ok user else SceneFile.default_user login)
    as [u|e]; [|done].
  intros [= <-]. repeat split; try done; by eexists.
Qed.

Lemma increment_shape sf version step sf' :
  descriptor_shape sf ->
  Spec.int_or_none version ->
  (exists z, step = VInt z) ->
  SceneFile.increment sf version step = Ok sf' ->
  descriptor_shape sf'.
Proof.
  intros (Hi & [z Hz] & Ho & Hd & Hc) Hv [k ->].
  unfold SceneFile.increment, getattr, mbind, result_bind.
  destruct Hv as [->|[v ->]].
  - rewrite Hz. simpl. intros [= <-].
    repeat split; try (by rewrite lookup_insert_ne); rewrite ?lookup_insert_eq;
      by eexists.
  - intros [= <-].
    repeat split; try (by rewrite lookup_insert_ne); rewrite ?lookup_insert_eq;
      by eexists.
Qed.

Lemma descriptor_has_shape login sf :
  Spec.descriptor login sf -> descriptor_shape sf.
Proof.
  induction 1 as [? ? ? ? ? ? sf Hv H|sf version step sf' _ IH Hv Hs H].
  - by eapply init_shape.
  - by eapply increment_shape.
Qed.

Lemma descriptor_extension login sf :
  Spec.descriptor login sf -> is_Some (sf !! "extension").
Proof.
  induction 1 as [? ? ? ? ? ? sf Hv H|sf version step sf' _ IH Hv Hs H].
  - revert H. unfold SceneFile.__init__, mbind, result_bind.
    destruct (if truthy user then Ok user else SceneFile.default_user login)
      as [u|e]; [|done].
    intros [= <-]. by eexists.
  - revert H. unfold SceneFile.increment, mbind, result_bind.
    destruct version as [|v|v].
    + destruct (getattr sf "version") as [cur|e]; [|done].
      destruct (SceneFile.py_add cur step) as [new|e]; [|done].
      intros [= <-]. by rewrite lookup_insert_ne.
    + intros [= <-]. by rewrite lookup_insert_ne.
    + intros [= <-]. by rewrite lookup_insert_ne.
Qed.

Section RenderingFacts.
Context {authority : contexts.Authority}.

Lemma get_filename_of_shape (self : SaveData.t) :
  descriptor_shape (SaveData.scene_file self) ->
  SaveData.get_filename self = (Raise (AttributeError "initials"), self).
Proof.
  intros (Hi & [z Hz] & [o Ho] & [d Hd] & [c Hc]).
  unfold SaveData.get_filename, getattr, mbind, result_bind.
  by rewrite Ho, Hd, Hc, Hz, Hi.
Qed.

(** C10.  For every descriptor, and so for the object made from any input
    path, [get_filename] raises [AttributeError] for the attribute
    [initials] and leaves the object as it was: it never returns a file
    name. *)
Theorem get_filename_raises :
  (forall login (self : SaveData.t),
     Spec.descriptor login (SaveData.scene_file self) ->
     SaveData.get_filename self = (Raise (AttributeError "initials"), self)) /\
  (forall login path (self : SaveData.t),
     SaveData.__init__ login path = Ok self ->
     SaveData.get_filename self = (Raise (AttributeError "initials"), self)).
Proof.
  split.
  - intros login self H. by eapply get_filename_of_shape, descriptor_has_shape.
  - intros login path self. unfold SaveData.__init__, mbind, result_bind.
    destruct (SceneFile.__init__ _ _ _ _ _ _ _) as [sf|e] eqn:E; [|done].
    intros [= <-]. apply get_filename_of_shape. cbn [SaveData.scene_file].
    eapply init_shape; [|exact E]. by left.
Qed.

(** The file name that the template gives once every field is there. *)
Lemma format_template description discipline version initials optional extension :
  Str.format
    (if SaveData.is_None optional
     then Str.replace (lit "_{OPTIONAL}") [] SaveData.template_string
     else SaveData.template_string)
    [(lit "DESCRIPTION", description); (lit "DISCIPLINE", discipline);
     (lit "VERSION", VStr version); (lit "INITIALS", VStr initials);
     (lit "OPTIONAL", optional); (lit "EXT", extension)] =
  Ok (Str.py_str description ++ "_"%char :: Str.py_str discipline ++
      "_"%char :: version ++ "_"%char :: initials ++
      (if SaveData.is_None optional then []
       else "_"%char :: Str.py_str optional) ++ Str.py_str extension).
Proof.
  transitivity
    (Ok (A := pystr)
       (Str.py_str description ++ "_"%char :: Str.py_str discipline ++
        "_"%char :: version ++ "_"%char :: initials ++
        (if SaveData.is_None optional then []
         else "_"%char :: Str.py_str optional) ++ Str.py_str extension ++ [])).
  - destruct optional as [|z|o]; vm_compute; reflexivity.
  - by rewrite app_nil_r.
Qed.

(** C5.  [get_filename] has no check on the version.  For a descriptor
    whose version is [-1] the exception is the [AttributeError] for
    [initials] that every call raises; and as soon as the descriptor has
    that attribute the call returns a file name, whose version segment is
    [-01]. *)
Theorem get_filename_undetermined_version login (self : SaveData.t)
    (initials : pystr) :
  let sf := SaveData.scene_file self in
  let with_initials :=
    SaveData.Build (SaveData.input_folder self) (SaveData.input_file self)
      (SaveData.is_new_file self) (SaveData.username self) (SaveData.dir self)
      (<["initials" := VStr initials]> sf) (SaveData.filename self) in
  Spec.descriptor login sf ->
  sf !! "version" = Some (VInt (-1)) ->
  (SaveData.get_filename self).1 = Raise (AttributeError "initials") /\
  exists description discipline optional extension,
    sf !! "description" = Some description /\
    sf !! "discipline" = Some discipline /\
    sf !! "optional" = Some optional /\
    sf !! "extension" = Some extension /\
    (SaveData.get_filename with_initials).1 =
      Ok (Str.py_str description ++ "_"%char :: Str.py_str discipline ++
          lit "_-01_" ++ initials ++
          (if SaveData.is_None optional then []
           else "_"%char :: Str.py_str optional) ++ Str.py_str extension).
Proof.
  intros sf with_initials H Hv.
  pose proof (descriptor_has_shape login sf H) as Hshape.
  destruct (descriptor_extension login sf H) as [extension He].
  split; [by rewrite (get_filename_of_shape self Hshape)|].
  destruct Hshape as (_ & _ & [optional Ho] & [description Hd] & [discipline Hc]).
  exists description, discipline, optional, extension.
  split; [done|]. split; [done|]. split; [done|]. split; [done|].
  unfold SaveData.get_filename, with_initials, getattr.
  cbn [SaveData.scene_file].
  rewrite lookup_insert_eq, !lookup_insert_ne by done.
  fold sf. rewrite Ho, Hd, Hc, Hv, He. step_bind.
  cbn [SaveData.percent_03d].
  change (Str.format_03d (-1)) with (lit "-01").
  rewrite format_template. reflexivity.
Qed.

End RenderingFacts.

Lemma get_filename_raises_witness :
  exists self,
    @SaveData.__init__ Studio.authority (lit "aweber")
      (lit "/jobs/alpha/build/char_a/foo_MDL_001_aw.ma") = Ok self /\
    SaveData.get_filename self = (Raise (AttributeError "initials"), self).
Proof.
  eexists. split; [reflexivity|].
  destruct (@get_filename_raises Studio.authority) as [_ H].
  apply (H (lit "aweber") (lit "/jobs/alpha/build/char_a/foo_MDL_001_aw.ma")).
  reflexivity.
Defined.

Lemma get_filename_undetermined_version_witness :
  exists sf,
    SceneFile.from_existing (lit "aweber") (lit "scene.ma") = Ok sf /\
    sf !! "version" = Some (VInt (-1)) /\
    forall self : @SaveData.t Studio.authority,
      SaveData.scene_file self = sf ->
      (SaveData.get_filename self).1 = Raise (AttributeError "initials") /\
      (SaveData.get_filename
         (SaveData.Build (SaveData.input_folder self) (SaveData.input_file self)
            (SaveData.is_new_file self) (SaveData.username self)
            (SaveData.dir self) (<["initials" := VStr (lit "aa")]> sf)
            (SaveData.filename self))).1 = Ok (lit "unititled_MDL_-01_aama").
Proof.
  eexists. split; [reflexivity|]. split; [reflexivity|]. intros self E.
  destruct (get_filename_undetermined_version (lit "aweber") self (lit "aa"))
    as (Hraise & description & discipline & optional & extension &
        Hd & Hc & Ho & He & Hname).
  - rewrite E.
    apply (Spec.descriptor_init (lit "aweber") VNone (VStr (lit "MDL"))
             (VInt (-1)) (VStr []) VNone VNone).
    + right. by eexists.
    + reflexivity.
  - rewrite E. reflexivity.
  - split; [exact Hraise|].
    rewrite E in Hd, Hc, Ho, He, Hname. rewrite Hname.
    vm_compute in Hd, Hc, Ho, He.
    injection Hd as <-. injection Hc as <-. injection Ho as <-.
    injection He as <-. reflexivity.
Defined.

(** C4.  The object made from a path in the canonical form raises instead
    of rendering a file name; and for a descriptor that is given the
    attribute [initials] the rendered name has no dot before the
    extension. *)
Theorem get_filename_not_canonical :
  (exists self,
     @SaveData.__init__ Studio.authority (lit "aweber")
       (lit "/jobs/alpha/build/char_a/foo_MDL_001_aw.ma") = Ok self /\
     (SaveData.get_filename self).1 = Raise (AttributeError "initials")) /\
  (exists sf,
     SceneFile.__init__ (lit "aweber") (VStr (lit "foo")) (VStr (lit "MDL"))
       (VInt 1) (VStr (lit "aw")) VNone VNone = Ok sf /\
     (SaveData.get_filename
        (@SaveData.Build Studio.authority [] [] 1 (lit "aweber")
           (Directory.__init__ Directory.InNone)
           (<["initials" := VStr (lit "aw")]> sf) None)).1 =
     Ok (lit "foo_MDL_001_awma")).
Proof.
  split; eexists; (split; [reflexivity|]); vm_compute; reflexivity.
Qed.

(** * Further facts on the inference functions *)

Lemma int_of_digits_from acc s :
  (0 <= acc)%Z ->
  (0 <= fold_left (fun a c => (10 * a + Str.digit_value c)%Z) s acc)%Z.
Proof.
  revert acc. induction s as [|c t IH]; intros acc H; simpl; [done|].
  apply IH. unfold Str.digit_value. lia.
Qed.

Lemma int_of_digits_nonneg s : (0 <= Str.int_of_digits s)%Z.
Proof. by apply int_of_digits_from. Qed.

Lemma tokens_nil occs : Spec.tokens occs = [] -> occs = [].
Proof. by destruct occs. Qed.

Lemma read_version_range s :
  (-1 <= Spec.read_version s)%Z /\
  (Spec.read_version s = (-1)%Z <->
   Spec.all_occurrences Spec.marker_here s = [] /\
   Spec.all_occurrences Spec.bare_number_here s = []).
Proof.
  unfold Spec.read_version.
  destruct (last (Spec.taken 0 _)) as [ds|] eqn:E1.
  - pose proof (int_of_digits_nonneg ds). split; [lia|]. split; [lia|].
    intros [Hm _]. rewrite Hm in E1. done.
  - apply last_None in E1.
    assert (Spec.all_occurrences Spec.marker_here s = []) as Hm.
    { destruct (Spec.all_occurrences Spec.marker_here s) eqn:E; [done|].
      exfalso. by apply (taken_first (p :: l)). }
    destruct (last (Spec.tokens _)) as [ds|] eqn:E2.
    + pose proof (int_of_digits_nonneg ds). split; [lia|]. split; [lia|].
      intros [_ Hn]. rewrite Hn in E2. done.
    + apply last_None, tokens_nil in E2. by repeat split.
Qed.

(** X1.  [_findVersion] never raises.  Its result is [-1] exactly when the
    name holds neither an explicit version marker nor a bare number, and
    is not negative otherwise. *)
Theorem findVersion_sentinel (s : pystr) :
  exists v,
    SceneFile._findVersion s = Ok v /\
    (-1 <= v)%Z /\
    (v = (-1)%Z <->
     Spec.all_occurrences Spec.marker_here s = [] /\
     Spec.all_occurrences Spec.bare_number_here s = []).
Proof.
  exists (Spec.read_version s). split; [apply findVersion_reads|].
  apply read_version_range.
Qed.

Lemma lower_char_word c : Str.is_word (Str.lower_char c) = Str.is_word c.
Proof. by_cases_on_char c. Qed.

Lemma lower_char_not_upper c : Str.is_upper (Str.lower_char c) = false.
Proof. by_cases_on_char c. Qed.

Lemma upper_lower (s : pystr) : Str.upper (Str.lower s) = Str.upper s.
Proof. apply upper_of_lower. unfold Str.lower. rewrite map_map.
  apply map_ext. intros c. by_cases_on_char c. Qed.

Lemma token_here_shape prev s x n :
  Spec.token_here prev s = Some (x, n) ->
  length x = 2 /\ forallb Str.is_word x = true.
Proof.
  unfold Spec.token_here, Spec.token_between.
  destruct s as [|c0 [|a [|b [|c3 t]]]]; try done.
  destruct (Str.one_of "._^" c0); [|done].
  destruct (Str.is_word a) eqn:Ha; [|done].
  destruct (Str.is_word b) eqn:Hb; [|done].
  destruct (Str.one_of "._$" c3); [|done].
  intros [= <- _]. simpl. by rewrite Ha, Hb.
Qed.

(** X2.  The author that [_findUser] returns is either empty, exactly when
    the reader finds no token that is not a discipline code, or two word
    characters none of which is an upper-case letter; it is never a
    discipline code in any case. *)
Theorem findUser_shape (s : pystr) :
  let u := SceneFile._findUser s in
  (u = [] <-> Spec.read_user s = None) /\
  (u <> [] ->
   length u = 2 /\
   forallb Str.is_word u = true /\
   forallb (fun c => negb (Str.is_upper c)) u = true) /\
  Spec.is_discipline u = false.
Proof.
  intros u. unfold u. rewrite findUser_reads.
  destruct (Spec.read_user s) as [v|] eqn:E.
  - pose proof (read_user_nonempty s v E) as Hne.
    unfold Spec.read_user in E.
    destruct (last _) as [tok|] eqn:El; [|done]. injection E as <-.
    apply last_Some_elem_of, list_elem_of_In, filter_In in El as [Hin Hnd].
    assert (Forall (fun x => length x = 2 /\ forallb Str.is_word x = true)
                   (Spec.taken 0 (Spec.all_occurrences Spec.token_here s))) as F.
    { rewrite <- findall_taken.
      - apply scan_Forall. intros prev s' x n. apply token_here_shape.
      - intros prev s' x n H. by apply token_here_consumes in H as [? _]. }
    rewrite Forall_forall in F. apply list_elem_of_In, F in Hin as [Hl Hw].
    repeat split; try done.
    + unfold Str.lower. by rewrite length_map.
    + unfold Str.lower. rewrite forallb_forall in Hw |- *.
      intros c [c' [<- Hc']]%in_map_iff. rewrite lower_char_word. by apply Hw.
    + unfold Str.lower. apply forallb_forall.
      intros c [c' [<- Hc']]%in_map_iff. by rewrite lower_char_not_upper.
    + unfold Spec.is_discipline. rewrite upper_lower.
      by apply negb_true_iff in Hnd.
  - repeat split; try done.
Qed.

Lemma findUser_shape_witness :
  length (SceneFile._findUser (lit "char_rig_AW_v2.ma")) = 2.
Proof.
  destruct (findUser_shape (lit "char_rig_AW_v2.ma")) as (_ & H & _).
  apply H. vm_compute. discriminate.
Defined.

Lemma existsb_dot_rsplit s :
  Spec.rsplit "."%char s = None -> existsb Spec.is_dot s = false.
Proof. intros H. by apply rsplit_None in H. Qed.

(** X3.  The extension that [_findExt] returns is never empty and holds
    neither a dot nor a slash. *)
Theorem findExt_shape (s : pystr) :
  SceneFile._findExt s <> [] /\
  existsb Spec.is_dot (SceneFile._findExt s) = false /\
  existsb Spec.is_slash (SceneFile._findExt s) = false.
Proof.
  rewrite findExt_extension. unfold Spec.extension_of.
  destruct (Spec.rsplit "."%char s) as [[stem ext]|] eqn:E; [|done].
  apply rsplit_Some in E as [_ Hd%existsb_dot_rsplit].
  destruct (existsb Spec.is_slash ext) eqn:Hs; [done|].
  destruct (forallb Spec.is_dot (Spec.last_component stem)); [done|].
  simpl. destruct ext as [|c ext]; [done|]. by repeat split.
Qed.

(** * Descriptors *)

Lemma read_discipline_known s : In (Spec.read_discipline s) SceneFile.disciplines.
Proof.
  unfold Spec.read_discipline.
  destruct (last _) as [d|] eqn:E.
  - assert (Forall (fun d => In d SceneFile.disciplines)
                   (Spec.taken 0 (Spec.all_occurrences Spec.code_here s))) as F.
    { rewrite <- findall_taken.
      - apply scan_Forall. intros prev s' x n. unfold Spec.code_here.
        destruct (List.find _ _) as [d'|] eqn:E'; [|done].
        intros [= <- _]. by apply find_some in E' as [? _].
      - intros prev s' x n Hx. by apply code_here_consumes in Hx as [? _]. }
    exact (last_Forall _ _ _ F E).
  - vm_compute. by left.
Qed.

Section FolderFacts.
Context {authority : contexts.Authority}.

Lemma disciplines_have_folders d :
  In d SceneFile.disciplines -> is_Some (SaveData.discipline_LUT !! d).
Proof.
  intros H.
  assert (forallb (fun d => bool_decide (is_Some (SaveData.discipline_LUT !! d)))
                  SceneFile.disciplines = true) as F by (vm_compute; reflexivity).
  rewrite forallb_forall in F. apply F in H. by apply bool_decide_eq_true in H.
Qed.

(** X4.  The discipline of every descriptor that [from_existing] returns
    is a known discipline code and has an entry in the table of discipline
    folders. *)
Theorem inferred_discipline_has_folder (login s : pystr) (sf : obj) :
  SceneFile.from_existing login s = Ok sf ->
  exists d folder,
    sf !! "discipline" = Some (VStr d) /\
    In d SceneFile.disciplines /\
    SaveData.discipline_LUT !! d = Some folder.
Proof.
  intros H.
  destruct (from_existing_outcome login s)
    as [(Hr & _)|(sf' & user & H' & _ & _ & Hd & _)]; [congruence|].
  assert (sf' = sf) as -> by congruence.
  pose proof (read_discipline_known s) as Hk.
  destruct (disciplines_have_folders _ Hk) as [folder Hf].
  by exists (Spec.read_discipline s), folder.
Qed.

(** X5.  [_get_discipline_folder] never returns a folder.  For a
    discipline of the table it raises [KeyError] for [DISCIPLINE], the
    field of the template, which [format] is not given by name; for any
    other discipline it raises [KeyError] for the discipline, and without
    the attribute [AttributeError]. *)
Theorem get_discipline_folder_raises (self : SaveData.t) :
  (forall d,
     SaveData.scene_file self !! "discipline" = Some (VStr d) ->
     is_Some (SaveData.discipline_LUT !! d) ->
     SaveData._get_discipline_folder self = Raise (KeyError (lit "DISCIPLINE"))) /\
  (forall d,
     SaveData.scene_file self !! "discipline" = Some (VStr d) ->
     SaveData.discipline_LUT !! d = None ->
     SaveData._get_discipline_folder self = Raise (KeyError d)) /\
  (SaveData.scene_file self !! "discipline" = None ->
   SaveData._get_discipline_folder self = Raise (AttributeError "discipline")) /\
  (forall folder, SaveData._get_discipline_folder self <> Ok folder).
Proof.
  assert (forall dir : pystr,
            Str.format_args SaveData.template_discipline_folder [VStr dir] [] =
            Raise (KeyError (lit "DISCIPLINE"))) as Hf by done.
  unfold SaveData._get_discipline_folder, getattr, SaveData.lut_item.
  repeat split.
  - intros d -> [folder Hd]. step_bind. rewrite Hd. apply Hf.
  - intros d -> Hd. step_bind. by rewrite Hd.
  - intros ->. done.
  - intros folder. destruct (SaveData.scene_file self !! "discipline") as [v|]; [|done].
    step_bind. destruct v as [|z|d]; try done.
    destruct (SaveData.discipline_LUT !! d); [|done]. by rewrite Hf.
Qed.

End FolderFacts.

Lemma inferred_discipline_has_folder_witness :
  exists sf,
    SceneFile.from_existing (lit "aweber") (lit "char_rp_v003.ma") = Ok sf /\
    exists d folder,
      sf !! "discipline" = Some (VStr d) /\
      SaveData.discipline_LUT !! d = Some folder.
Proof.
  eexists. split; [reflexivity|].
  destruct (inferred_discipline_has_folder
              (lit "aweber") (lit "char_rp_v003.ma") _ eq_refl)
    as (d & folder & Hd & _ & Hf).
  by exists d, folder.
Defined.

Lemma get_discipline_folder_raises_witness :
  exists sf,
    SceneFile.from_existing (lit "aweber") (lit "char_rp_v003.ma") = Ok sf /\
    forall self : @SaveData.t Studio.authority,
      SaveData.scene_file self = sf ->
      SaveData._get_discipline_folder self = Raise (KeyError (lit "DISCIPLINE")).
Proof.
  eexists. split; [reflexivity|]. intros self E.
  destruct (get_discipline_folder_raises self) as [H _].
  apply (H (lit "RP")); rewrite ?E; vm_compute; by eauto.
Defined.

(** * The constructor and [increment] *)

Lemma py_or_truthy a b : truthy b = true -> truthy (py_or a b) = true.
Proof. intros H. unfold py_or. by destruct (truthy a) eqn:E. Qed.

Lemma default_user_truthy login v :
  SceneFile.default_user login = Ok v -> truthy v = true.
Proof.
  unfold SceneFile.default_user, mbind, result_bind, Str.index0, Str.last_item.
  destruct login as [|a login]; [done|].
  destruct (last _) as [[|b part]|]; try done. by intros [= <-].
Qed.

(** X6.  A descriptor that the constructor returns has the six attributes
    description, discipline, version, optional, user and extension and no
    other; none of them is false in the sense of Python, except that
    [optional] may be [None].  The constructor raises, with [IndexError],
    only when no author is given and the login name yields no initials. *)
Theorem init_defaults (login : pystr)
    (description discipline version user optional extension : value) :
  match SceneFile.__init__ login description discipline version user optional
          extension with
  | Ok sf =>
      dom sf =
        list_to_set ["description"; "discipline"; "version"; "optional";
                     "user"; "extension"] /\
      (forall k v, sf !! k = Some v -> k <> "optional" -> truthy v = true) /\
      (exists v, sf !! "optional" = Some v /\ (v = VNone \/ truthy v = true))
  | Raise e =>
      e = IndexError /\ truthy user = false /\
      SceneFile.default_user login = Raise IndexError
  end.
Proof.
  unfold SceneFile.__init__, mbind, result_bind.
  destruct (if truthy user then Ok user else SceneFile.default_user login)
    as [u|e] eqn:Eu.
  - assert (truthy u = true) as Hu.
    { destruct (truthy user) eqn:E; [by injection Eu as <-|].
      by eapply default_user_truthy. }
    cbv beta iota zeta. split; [|split].
    + rewrite !dom_insert_L, dom_empty_L. set_solver.
    + intros k v Hk Hne.
      repeat (apply lookup_insert_Some in Hk as [[<- <-]|[_ Hk]];
              [try done; by (apply py_or_truthy || idtac)|]).
      done.
    + exists (py_or optional VNone). split; [done|].
      unfold py_or. destruct (truthy optional) eqn:E; [right; exact E|by left].
  - destruct (truthy user) eqn:E; [done|].
    pose proof (default_user_raises _ _ Eu) as ->. by repeat split.
Qed.

(** X7.  On a descriptor whose version is an integer, the steps of
    [increment] add up, a step and its opposite give the descriptor back,
    and an explicit version (zero included) is stored as it is whatever
    the step. *)
Theorem increment_steps (sf : obj) (z a b : Z) :
  sf !! "version" = Some (VInt z) ->
  (sf1 ← SceneFile.increment sf VNone (VInt a);
   SceneFile.increment sf1 VNone (VInt b)) =
    SceneFile.increment sf VNone (VInt (a + b)) /\
  (sf1 ← SceneFile.increment sf VNone (VInt a);
   SceneFile.increment sf1 VNone (VInt (- a))) = Ok sf /\
  SceneFile.increment sf VNone (VInt a) = Ok (<["version" := VInt (z + a)]> sf) /\
  (forall v step, SceneFile.increment sf (VInt v) step =
                  Ok (<["version" := VInt v]> sf)).
Proof.
  intros H. unfold SceneFile.increment, getattr, mbind, result_bind.
  rewrite H. simpl. rewrite lookup_insert_eq. simpl.
  rewrite !insert_insert_eq. repeat split.
  - do 3 f_equal. lia.
  - f_equal. replace (z + a + - a)%Z with z by lia. by apply insert_id.
Qed.

Lemma increment_steps_witness :
  exists sf,
    SceneFile.from_existing (lit "aweber") (lit "char_mdl_rig_v003.ma") = Ok sf /\
    (sf1 ← SceneFile.increment sf VNone (VInt 2);
     SceneFile.increment sf1 VNone (VInt (-2))) = Ok sf.
Proof.
  eexists. split; [reflexivity|].
  eapply (increment_steps _ 3 2 0). reflexivity.
Defined.

(** X8.  The version stored by [from_existing] is never zero and never
    below [-1]; it is [-1] exactly when the name holds neither a marker
    nor a bare number.  [increment] with the default step then stores the
    next integer: zero for a name without any number. *)
Theorem inferred_version_then_increment (login s : pystr) (sf : obj) :
  SceneFile.from_existing login s = Ok sf ->
  exists v,
    sf !! "version" = Some (VInt v) /\
    v <> 0%Z /\ (-1 <= v)%Z /\
    (v = (-1)%Z <->
     Spec.all_occurrences Spec.marker_here s = [] /\
     Spec.all_occurrences Spec.bare_number_here s = []) /\
    SceneFile.increment sf VNone (VInt 1) = Ok (<["version" := VInt (v + 1)]> sf).
Proof.
  intros H.
  destruct (from_existing_outcome login s)
    as [(Hr & _)|(sf' & user & H' & _ & Hv & _)]; [congruence|].
  assert (sf' = sf) as -> by congruence.
  exists (Spec.stored_version (Spec.read_version s)).
  destruct (read_version_range s) as [Hge Hiff].
  split; [exact Hv|]. unfold Spec.stored_version.
  destruct (Z.eqb_spec (Spec.read_version s) 0) as [E|E].
  - repeat split; try lia.
    + intros Hn. apply Hiff in Hn. lia.
    + unfold SceneFile.increment, getattr, mbind, result_bind.
      rewrite Hv. unfold Spec.stored_version. by rewrite E.
  - repeat split; try lia; try (by apply Hiff).
    unfold SceneFile.increment, getattr, mbind, result_bind.
    rewrite Hv. unfold Spec.stored_version.
    by destruct (Z.eqb_spec (Spec.read_version s) 0).
Qed.

Lemma inferred_version_then_increment_witness :
  exists sf,
    SceneFile.from_existing (lit "aweber") (lit "scene.ma") = Ok sf /\
    SceneFile.increment sf VNone (VInt 1) = Ok (<["version" := VInt 0]> sf).
Proof.
  eexists. split; [reflexivity|].
  destruct (inferred_version_then_increment (lit "aweber") (lit "scene.ma") _ eq_refl)
    as (v & Hv & _ & _ & _ & Hi).
  vm_compute in Hv. injection Hv as <-. exact Hi.
Defined.

(** * Splitting strings and paths *)

Lemma split_nonempty c s : Str.split c s <> [].
Proof.
  destruct s as [|x t]; simpl; [done|].
  destruct (Ascii.eqb x c); [done|]. by destruct (Str.split c t).
Qed.

(** The parts of a string are what lies before its last separator, split,
    and what lies after it. *)
Lemma split_rsplit c s :
  match Spec.rsplit c s with
  | Some (a, b) => Str.split c s = Str.split c a ++ [b]
  | None => Str.split c s = [s]
  end.
Proof.
  induction s as [|x t IH]; simpl; [done|].
  destruct (Spec.rsplit c t) as [[a b]|] eqn:E.
  - simpl. destruct (Ascii.eqb x c); [by rewrite IH|].
    rewrite IH. pose proof (split_nonempty c a).
    by destruct (Str.split c a).
  - rewrite IH. destruct (Ascii.eqb x c); done.
Qed.

Lemma split_cons_part c a rest :
  Spec.rsplit c a = None ->
  Str.split c (a ++ c :: rest) = a :: Str.split c rest.
Proof.
  intros H. induction a as [|x a IH]; simpl.
  - by rewrite Ascii.eqb_refl.
  - simpl in H. destruct (Spec.rsplit c a) as [[? ?]|]; [done|].
    destruct (Ascii.eqb x c); [done|]. by rewrite IH.
Qed.

Lemma split_one c a : Spec.rsplit c a = None -> Str.split c a = [a].
Proof. intros H. pose proof (split_rsplit c a) as E. by rewrite H in E. Qed.

Lemma split_parts c s :
  Forall (fun part => Spec.rsplit c part = None) (Str.split c s).
Proof.
  induction s as [|x t IH]; simpl; [by repeat constructor|].
  destruct (Ascii.eqb x c) eqn:E; [by constructor|].
  destruct (Str.split c t) as [|p ps]; [by repeat constructor; simpl; rewrite E|].
  inversion IH as [|? ? Hp Hps]; subst. constructor; [|done].
  simpl. by rewrite Hp, E.
Qed.

(** X9.  The default author is the first letter of the login name followed
    by the first letter of its last dash-separated part: a login without a
    dash gives its first letter twice.  It is an [IndexError] for an empty
    login and for a login that ends with a dash. *)
Theorem default_user_initials :
  (forall a rest,
     Spec.rsplit "-"%char (a :: rest) = None ->
     SceneFile.default_user (a :: rest) = Ok (VStr [a; a])) /\
  (forall a first b last_part,
     Spec.rsplit "-"%char (b :: last_part) = None ->
     SceneFile.default_user (a :: first ++ "-"%char :: b :: last_part) =
     Ok (VStr [a; b])) /\
  SceneFile.default_user [] = Raise IndexError /\
  (forall login, SceneFile.default_user (login ++ ["-"%char]) = Raise IndexError).
Proof.
  unfold SceneFile.default_user, mbind, result_bind, Str.index0, Str.last_item.
  repeat split.
  - intros a rest H. by rewrite (split_one _ _ H).
  - intros a first b last_part H.
    pose proof (split_rsplit "-"%char ((a :: first) ++ "-"%char :: b :: last_part)) as E.
    rewrite (rsplit_at "-"%char (a :: first) (b :: last_part) H) in E.
    change (a :: first ++ "-"%char :: b :: last_part)
      with ((a :: first) ++ "-"%char :: b :: last_part).
    by rewrite E, last_snoc.
  - intros login. destruct login as [|a login]; [done|]. simpl app.
    pose proof (split_rsplit "-"%char ((a :: login) ++ ["-"%char])) as E.
    rewrite (rsplit_at "-"%char (a :: login) [] eq_refl) in E.
    change ((a :: login) ++ ["-"%char]) with (a :: (login ++ ["-"%char])) in E.
    by rewrite E, last_snoc.
Qed.

Lemma default_user_initials_witness :
  SceneFile.default_user (lit "andres-m-weber") = Ok (VStr (lit "aw")).
Proof.
  destruct default_user_initials as (_ & H & _).
  apply (H "a"%char (lit "ndres-m") "w"%char (lit "eber")). reflexivity.
Defined.

(** * The object made from a path *)

Lemma basename_last_component p : os_path.basename p = Spec.last_component p.
Proof.
  unfold os_path.basename, Spec.last_component. rewrite rfind_rsplit.
  destruct (Spec.rsplit "/"%char p) as [[a b]|] eqn:E.
  - apply rsplit_Some in E as [-> _].
    replace (Z.to_nat (Z.of_nat (length a) + 1)) with (length (a ++ ["/"%char]))
      by (rewrite length_app; simpl; lia).
    replace (a ++ "/"%char :: b) with ((a ++ ["/"%char]) ++ b)
      by (by rewrite <- app_assoc).
    by rewrite drop_app_length.
  - done.
Qed.

Lemma drop_class_head (p : ascii -> bool) c s :
  p c = false -> Str.drop_class p (c :: s) = c :: s.
Proof. intros H. simpl. by rewrite H. Qed.

Lemma dirname_of_join folder c file :
  Spec.rsplit "/"%char file = None ->
  Spec.is_slash c = false ->
  os_path.dirname ((folder ++ [c]) ++ "/"%char :: file) = folder ++ [c].
Proof.
  intros Hf Hc. unfold os_path.dirname. rewrite rfind_rsplit.
  rewrite (rsplit_at "/"%char (folder ++ [c]) file Hf).
  replace (Z.to_nat (Z.of_nat (length (folder ++ [c])) + 1))
    with (length ((folder ++ [c]) ++ ["/"%char]))
    by (rewrite !length_app; simpl; lia).
  replace ((folder ++ [c]) ++ "/"%char :: file)
    with (((folder ++ [c]) ++ ["/"%char]) ++ file)
    by (by rewrite <- !app_assoc).
  rewrite take_app_length.
  replace (forallb _ _) with false.
  - unfold os_path.rstrip_slash. rewrite !rev_app_distr. simpl.
    unfold Spec.is_slash in Hc. rewrite Hc. simpl.
    by rewrite rev_involutive.
  - symmetry. rewrite !forallb_app. simpl. unfold Spec.is_slash in Hc.
    rewrite Hc. simpl. by rewrite andb_false_r.
Qed.

Section ObjectFacts.
Context {authority : contexts.Authority}.

(** X10.  The descriptor of the object made from a path does not depend
    on what the file name says: its version is 1, its discipline [MDL],
    its extension [ma], it has no optional tag, its author is the default
    one of the login, and its description is the whole file name
    ([unititled] for a path without one).  The constructor raises exactly
    when the login name yields no initials. *)
Theorem init_ignores_file_name (login path : pystr) :
  match SaveData.__init__ login path with
  | Ok self =>
      let sf := SaveData.scene_file self in
      sf !! "version" = Some (VInt 1) /\
      sf !! "discipline" = Some (VStr (lit "MDL")) /\
      sf !! "extension" = Some (VStr (lit "ma")) /\
      sf !! "optional" = Some VNone /\
      sf !! "description" =
        Some (VStr match Spec.last_component path with
                   | [] => lit "unititled"
                   | c :: name => c :: name
                   end) /\
      (exists user, SceneFile.default_user login = Ok user /\
                    sf !! "user" = Some user) /\
      SaveData.input_file self = Spec.last_component path /\
      SaveData.filename self = None
  | Raise e =>
      e = IndexError /\ SceneFile.default_user login = Raise IndexError
  end.
Proof.
  unfold SaveData.__init__, SceneFile.__init__, mbind, result_bind.
  rewrite basename_last_component. cbn [truthy].
  destruct (SceneFile.default_user login) as [user|e] eqn:E.
  - cbn [SaveData.scene_file SaveData.input_file SaveData.filename].
    repeat split; try done.
    + unfold py_or. by destruct (Spec.last_component path).
    + by exists user.
  - by rewrite (default_user_raises _ _ E).
Qed.

(** X11.  For a path made of a folder that does not end with a slash, a
    slash and a file name without slash, the object keeps the folder and
    the file name; a path without slash is all file name.  The object is
    flagged as new exactly for the empty path. *)
Theorem init_splits_path (login path : pystr) (self : SaveData.t) :
  SaveData.__init__ login path = Ok self ->
  (forall folder c file,
     path = (folder ++ [c]) ++ "/"%char :: file ->
     Spec.is_slash c = false ->
     existsb Spec.is_slash file = false ->
     SaveData.input_folder self = folder ++ [c] /\
     SaveData.input_file self = file) /\
  (existsb Spec.is_slash path = false ->
   SaveData.input_folder self = [] /\ SaveData.input_file self = path) /\
  (SaveData.is_new_file self = 1%Z <-> path = []) /\
  (SaveData.is_new_file self = 0%Z <-> path <> []).
Proof.
  unfold SaveData.__init__, mbind, result_bind.
  destruct (SceneFile.__init__ _ _ _ _ _ _ _) as [sf|e]; [|done].
  intros [= <-].
  cbn [SaveData.input_folder SaveData.input_file SaveData.is_new_file].
  repeat split.
  - subst path. apply dirname_of_join; [|done].
    rewrite existsb_slash in H1. by destruct (Spec.rsplit "/"%char file).
  - subst path. rewrite basename_last_component. unfold Spec.last_component.
    rewrite rsplit_at; [done|].
    rewrite existsb_slash in H1. by destruct (Spec.rsplit "/"%char file).
  - rewrite existsb_slash in H.
    unfold os_path.dirname. rewrite rfind_rsplit.
    by destruct (Spec.rsplit "/"%char path).
  - rewrite existsb_slash in H. rewrite basename_last_component.
    unfold Spec.last_component. by destruct (Spec.rsplit "/"%char path).
  - by destruct path.
  - by intros ->.
  - by destruct path.
  - by destruct path.
Qed.

End ObjectFacts.

Lemma init_splits_path_witness :
  exists self,
    @SaveData.__init__ Studio.authority (lit "aweber")
      (lit "/jobs/alpha/build/char_a/foo_MDL_001_aw.ma") = Ok self /\
    SaveData.input_folder self = lit "/jobs/alpha/build/char_a" /\
    SaveData.input_file self = lit "foo_MDL_001_aw.ma".
Proof.
  eexists. split; [reflexivity|].
  destruct (@init_splits_path Studio.authority (lit "aweber")
              (lit "/jobs/alpha/build/char_a/foo_MDL_001_aw.ma") _ eq_refl)
    as [H _].
  apply (H (lit "/jobs/alpha/build/char_") "a"%char (lit "foo_MDL_001_aw.ma"));
    reflexivity.
Defined.

(** * Paths of the tree *)

Lemma no_slash_rsplit n :
  existsb Spec.is_slash n = false -> Spec.rsplit "/"%char n = None.
Proof. intros H. rewrite existsb_slash in H. by destruct (Spec.rsplit "/"%char n). Qed.

Lemma rsplit_no_slash n :
  Spec.rsplit "/"%char n = None -> existsb Spec.is_slash n = false.
Proof. intros H. by rewrite existsb_slash, H. Qed.

Section PathFacts.
Context {authority : contexts.Authority}.

(** X12.  [_parse_path] returns at most three folders; none of them is
    empty, is [jobs] or holds a slash. *)
Theorem parse_path_shape (p : pystr) :
  length (Directory._parse_path p) <= 3 /\
  Forall (fun f => path_segment f = true) (Directory._parse_path p).
Proof.
  unfold Directory._parse_path. split.
  - rewrite length_take. lia.
  - apply Forall_take, Forall_forall. intros f Hf.
    apply list_elem_of_In, filter_In in Hf as [Hin Hf].
    unfold path_segment. rewrite Hf. simpl. apply negb_true_iff.
    apply rsplit_no_slash.
    pose proof (split_parts "/"%char p) as F. rewrite Forall_forall in F.
    by apply F, list_elem_of_In.
Qed.

Lemma parse_path_below_jobs j sc sh tail :
  path_segment sc = true -> path_segment sh = true ->
  existsb Spec.is_slash j = false ->
  tail = [] \/ (exists rest, tail = "/"%char :: rest) ->
  Directory._parse_path (lit "/jobs/" ++ j ++ "/"%char :: sc ++ "/"%char :: sh ++ tail) =
  if negb (Str.eqb j []) && negb (Str.eqb j (lit "jobs"))
  then [j; sc; sh]
  else take 3 (sc :: sh ::
                 match tail with
                 | [] => []
                 | _ :: rest =>
                     List.filter
                       (fun folder => negb (Str.eqb folder [])
                                      && negb (Str.eqb folder (lit "jobs")))
                       (Str.split "/"%char rest)
                 end).
Proof.
  intros Hsc Hsh Hj Ht. unfold Directory._parse_path.
  unfold path_segment in Hsc, Hsh.
  apply andb_true_iff in Hsc as [Hsc1 Hsc2].
  apply andb_true_iff in Hsh as [Hsh1 Hsh2].
  apply negb_true_iff in Hsc2, Hsh2.
  change (lit "/jobs/" ++ j ++ "/"%char :: sc ++ "/"%char :: sh ++ tail)
    with ("/"%char :: lit "jobs" ++ "/"%char :: j ++ "/"%char :: sc ++ "/"%char :: sh ++ tail).
  change (Str.split "/"%char ("/"%char :: ?x)) with ([] :: Str.split "/"%char x).
  rewrite (split_cons_part "/"%char (lit "jobs")) by done.
  rewrite (split_cons_part "/"%char j) by (by apply no_slash_rsplit).
  rewrite (split_cons_part "/"%char sc) by (by apply no_slash_rsplit).
  assert (Str.split "/"%char (sh ++ tail) =
          sh :: match tail with [] => [] | _ :: rest => Str.split "/"%char rest end)
    as ->.
  { destruct Ht as [->|[rest ->]].
    - rewrite app_nil_r. by apply split_one, no_slash_rsplit.
    - by apply split_cons_part, no_slash_rsplit. }
  cbn [List.filter]. change (Str.eqb [] []) with true.
  change (Str.eqb (lit "jobs") []) with false.
  change (Str.eqb (lit "jobs") (lit "jobs")) with true.
  cbn [negb andb]. rewrite Hsc1, Hsh1.
  destruct (negb (Str.eqb j []) && negb (Str.eqb j (lit "jobs"))); [done|].
  by destruct tail.
Qed.

Section WithPlaces.
Context {places : contexts.Places}.

(** X13.  [build_path] always returns [/jobs/], the job, the scene and the
    shot, separated by slashes: names are inserted as they are.  When the
    three names can stand for folders, [_parse_path] gives them back from
    the path and from any path below it; a job named [jobs] is lost. *)
Theorem build_path_parse_path (self : Directory.t) :
  let j := contexts.name (contexts.job (Directory.context self)) in
  let sc := contexts.name (contexts.scene (Directory.context self)) in
  let sh := contexts.name (contexts.shot (Directory.context self)) in
  let path := lit "/jobs/" ++ j ++ "/"%char :: sc ++ "/"%char :: sh in
  Directory.build_path self = Ok path /\
  (path_segment j = true -> path_segment sc = true -> path_segment sh = true ->
   Directory._parse_path path = [j; sc; sh] /\
   forall rest, Directory._parse_path (path ++ "/"%char :: rest) = [j; sc; sh]) /\
  (j = lit "jobs" -> path_segment sc = true -> path_segment sh = true ->
   Directory._parse_path path = [sc; sh]).
Proof.
  intros j sc sh path. split; [|split].
  - unfold Directory.build_path. fold j sc sh. subst path.
    generalize j sc sh. intros a b c.
    transitivity (@Ok pystr (lit "/jobs/" ++ a ++ "/"%char :: b ++ "/"%char :: c ++ []));
      [vm_compute; reflexivity|by rewrite app_nil_r].
  - intros Hj Hsc Hsh. unfold path_segment in Hj.
    apply andb_true_iff in Hj as [Hj1 Hj2]. apply negb_true_iff in Hj2.
    split.
    + pose proof (parse_path_below_jobs j sc sh [] Hsc Hsh Hj2 (or_introl eq_refl)) as E.
      rewrite app_nil_r, Hj1 in E. exact E.
    + intros rest.
      pose proof (parse_path_below_jobs j sc sh ("/"%char :: rest) Hsc Hsh Hj2
                    (or_intror (ex_intro _ rest eq_refl))) as E.
      rewrite Hj1 in E. rewrite <- E. subst path.
      rewrite <- !app_assoc. simpl. by rewrite <- !app_assoc.
  - intros Hj Hsc Hsh.
    assert (existsb Spec.is_slash j = false) as Hj2 by (by rewrite Hj).
    pose proof (parse_path_below_jobs j sc sh [] Hsc Hsh Hj2 (or_introl eq_refl)) as E.
    rewrite app_nil_r in E. subst path. rewrite E. by rewrite Hj.
Qed.

End WithPlaces.

Lemma replace_no_slash n :
  existsb Spec.is_slash n = false ->
  Str.replace_from (lit "/jobs/") [] 0 n = n.
Proof.
  induction n as [|c n IH]; [done|]. intros H. simpl in H.
  apply orb_false_iff in H as [Hc Hn]. simpl.
  unfold Str.starts_with, Str.eqb. simpl.
  rewrite bool_decide_eq_false_2.
  - f_equal. by apply IH.
  - intros [= -> _]. done.
Qed.

(** X14.  [get_jobs] turns the paths of the entries of [/jobs] into the
    names of the entries. *)
Theorem get_jobs_names (names : list pystr) :
  Forall (fun n => existsb Spec.is_slash n = false) names ->
  Directory.get_jobs (map (fun n => lit "/jobs/" ++ n) names) = names.
Proof.
  unfold Directory.get_jobs. induction 1 as [|n names Hn _ IH]; [done|].
  cbn [map]. f_equal; [|exact IH].
  unfold Str.replace. simpl. by apply replace_no_slash.
Qed.

End PathFacts.

Lemma build_path_parse_path_witness :
  let d0 := @Directory.__init__ Studio.authority
              (Directory.InDict (Studio.context_of "alpha" "build" "char_a")) in
  Directory._parse_path (lit "/jobs/alpha/build/char_a") =
  [lit "alpha"; lit "build"; lit "char_a"].
Proof.
  intros d0.
  destruct (@build_path_parse_path Studio.authority Studio.places d0)
    as (_ & H & _).
  apply H; reflexivity.
Defined.

Lemma get_jobs_names_witness :
  Directory.get_jobs [lit "/jobs/alpha"; lit "/jobs/beta"] =
  [lit "alpha"; lit "beta"].
Proof.
  apply (get_jobs_names [lit "alpha"; lit "beta"]).
  repeat constructor.
Defined.

(** * The constructor of [Directory] and the readers of the cache *)

Section CacheFacts.
Context {authority : contexts.Authority}.

Lemma refresh_tree_is (self : Directory.t) :
  Directory.refresh_tree self =
  Directory.Build (Directory.context self)
    {[contexts.name (contexts.job (Directory.context self)) :=
        fold_left cache_scene
          (contexts.findChildren (contexts.job (Directory.context self))) ∅]}.
Proof.
  destruct self as [ctx tc]. unfold Directory.refresh_tree.
  cbv zeta. cbn [Directory.context].
  rewrite set_tree_cache_build. cbn [Directory.tree_cache].
  rewrite set_tree_cache_build, insert_empty. apply cache_scenes.
Qed.

Lemma cached_lookup (scenes : list contexts.node) nm :
  fold_left cache_scene scenes ∅ !! nm = Spec.cached_shots scenes nm.
Proof.
  rewrite cached_scenes_lookup, lookup_empty.
  by destruct (Spec.cached_shots scenes nm).
Qed.

Lemma fold_keys (pv : list pystr) (ks : list pystr) :
  forall (a : nat) (d0 : gmap pystr value),
  NoDup ks ->
  let d :=
    fold_left
      (fun jc (ik : nat * pystr) =>
         match pv !! fst ik with
         | Some v => <[snd ik := VStr v]> jc
         | None => jc
         end)
      (combine (seq a (length ks)) ks) d0 in
  (forall i k, ks !! i = Some k ->
     d !! k = match pv !! (a + i) with
              | Some v => Some (VStr v)
              | None => d0 !! k
              end) /\
  (forall k, ~ In k ks -> d !! k = d0 !! k).
Proof.
  induction ks as [|k0 ks IH]; intros a d0 Hnd; simpl.
  - split; [by intros i k|done].
  - inversion Hnd as [|? ? Hk0 Hnd']; subst.
    rewrite list_elem_of_In in Hk0.
    destruct (IH (S a)
                (match pv !! a with
                 | Some v => <[k0 := VStr v]> d0
                 | None => d0
                 end) Hnd') as [H1 H2].
    split.
    + intros [|i] k Hk; simpl in Hk.
      * injection Hk as <-. rewrite (H2 k0 Hk0), Nat.add_0_r.
        destruct (pv !! a); [by rewrite lookup_insert_eq|done].
      * rewrite (H1 i k Hk).
        replace (a + S i) with (S a + i) by lia.
        destruct (pv !! (S a + i)); [done|].
        assert (k <> k0) as Hne.
        { intros ->. apply Hk0. apply list_elem_of_In, list_elem_of_lookup. eauto. }
        destruct (pv !! a); [by rewrite lookup_insert_ne|done].
    + intros k Hk. rewrite H2 by tauto.
      destruct (pv !! a); [|done]. rewrite lookup_insert_ne; [done|].
      intros ->. tauto.
Qed.

(** X15.  The object made from a path stores the i-th folder of the path
    under the i-th key in the order in which the dictionary of job, scene
    and shot lists its keys, and [None] where the path has no such folder;
    the context is made from that dictionary. *)
Theorem init_from_path (path : pystr) :
  NoDup contexts.context_keys ->
  exists d,
    Directory.context (Directory.__init__ (Directory.InStr path)) =
      contexts.contextFactory d /\
    (forall i k,
       contexts.context_keys !! i = Some k ->
       In k [lit "job"; lit "scene"; lit "shot"] ->
       d !! k = Some match Directory._parse_path path !! i with
                     | Some folder => VStr folder
                     | None => VNone
                     end) /\
    (forall k,
       In k [lit "job"; lit "scene"; lit "shot"] ->
       ~ In k contexts.context_keys ->
       d !! k = Some VNone).
Proof.
  intros Hnd. unfold Directory.__init__. rewrite refresh_tree_is.
  cbn [Directory.context]. eexists. split; [reflexivity|].
  destruct (fold_keys (Directory._parse_path path) contexts.context_keys 0
              (list_to_map (map (fun k => (k, VNone))
                                [lit "job"; lit "scene"; lit "shot"])) Hnd)
    as [H1 H2].
  assert (forall k, In k [lit "job"; lit "scene"; lit "shot"] ->
            (list_to_map (map (fun k => (k, VNone))
                              [lit "job"; lit "scene"; lit "shot"])
               : gmap pystr value) !! k = Some VNone) as Hd0.
  { intros k [<-|[<-|[<-|[]]]]; vm_compute; reflexivity. }
  split.
  - intros i k Hk Hin. rewrite (H1 i k Hk). simpl.
    destruct (Directory._parse_path path !! i); [done|]. by apply Hd0.
  - intros k Hin Hk. rewrite (H2 k Hk). by apply Hd0.
Qed.

(** X16.  [refresh_tree] replaces the whole cache: the result does not
    depend on what the cache held, a second refresh changes nothing, the
    context is kept, and the only key of the cache is the name of the
    current job.  The same holds right after the constructor. *)
Theorem refresh_tree_replaces (self : Directory.t)
    (tc : gmap pystr (gmap pystr (list pystr))) (arg : Directory.context_in) :
  Directory.refresh_tree (Directory.set_tree_cache tc self) =
    Directory.refresh_tree self /\
  Directory.refresh_tree (Directory.refresh_tree self) =
    Directory.refresh_tree self /\
  Directory.context (Directory.refresh_tree self) = Directory.context self /\
  dom (Directory.tree_cache (Directory.refresh_tree self)) =
    {[contexts.name (contexts.job (Directory.context self))]} /\
  dom (Directory.tree_cache (Directory.__init__ arg)) =
    {[contexts.name
        (contexts.job (Directory.context (Directory.__init__ arg)))]}.
Proof.
  split; [|split; [|split; [|split]]].
  - rewrite !refresh_tree_is. reflexivity.
  - rewrite !refresh_tree_is. reflexivity.
  - rewrite refresh_tree_is. reflexivity.
  - rewrite refresh_tree_is. cbn [Directory.tree_cache]. apply dom_singleton_L.
  - unfold Directory.__init__. rewrite refresh_tree_is.
    cbn [Directory.tree_cache Directory.context]. apply dom_singleton_L.
Qed.

Lemma cached_shots_Some (scenes : list contexts.node) nm :
  is_Some (Spec.cached_shots scenes nm) <->
  Directory.py_in nm Directory.scene_ignore_list = false /\
  exists sc, In sc scenes /\ contexts.name sc = nm.
Proof.
  unfold Spec.cached_shots.
  destruct (Directory.py_in nm Directory.scene_ignore_list).
  - split; [by intros [? ?]|by intros [? _]].
  - destruct (last _) as [sc|] eqn:E.
    + split; [|by eexists]. intros _. split; [done|].
      apply last_Some_elem_of, list_elem_of_In, filter_In in E as [Hin Hn].
      exists sc. split; [done|]. by apply bool_decide_eq_true in Hn.
    + split; [by intros [? ?]|]. intros [_ (sc & Hin & Hn)].
      apply last_None in E.
      assert (In sc (List.filter (fun sc => Str.eqb (contexts.name sc) nm) scenes)) as Hf.
      { apply filter_In. split; [done|]. by apply bool_decide_eq_true. }
      rewrite E in Hf. done.
Qed.

(** X17.  After a refresh [get_scenes] returns, without repetition,
    exactly the names of the child scenes of the current job that are
    neither on the scene-ignore list nor in the given filter. *)
Theorem get_scenes_after_refresh (self : Directory.t) (filter : list pystr) :
  let job := contexts.job (Directory.context self) in
  exists scenes,
    Directory.get_scenes (Directory.refresh_tree self) filter =
      (Ok scenes, filter ++ Directory.scene_ignore_list) /\
    NoDup scenes /\
    (forall x,
       In x scenes <->
       (exists sc, In sc (contexts.findChildren job) /\ contexts.name sc = x) /\
       Directory.py_in x Directory.scene_ignore_list = false /\
       Directory.py_in x filter = false).
Proof.
  intros job. rewrite refresh_tree_is. unfold Directory.get_scenes, Directory.getitem.
  cbn [Directory.tree_cache Directory.context]. fold job.
  rewrite lookup_singleton_eq. unfold mbind, result_bind.
  eexists. split; [reflexivity|]. split.
  - apply NoDup_ListNoDup, List.NoDup_filter, NoDup_ListNoDup.
    apply (NoDup_fst_map_to_list (fold_left cache_scene (contexts.findChildren job) ∅)).
  - intros x. rewrite filter_In, negb_true_iff, py_in_app, orb_false_iff.
    assert (In x (map fst (map_to_list
                             (fold_left cache_scene (contexts.findChildren job) ∅))) <->
            is_Some (Spec.cached_shots (contexts.findChildren job) x)) as ->.
    { rewrite <- cached_lookup. rewrite in_map_iff. split.
      - intros [[k v] [<- Hin]]. apply list_elem_of_In, elem_of_map_to_list in Hin.
        by eexists.
      - intros [v Hv]. exists (x, v). split; [done|].
        by apply list_elem_of_In, elem_of_map_to_list. }
    rewrite cached_shots_Some. tauto.
Qed.

(** X18.  After a refresh [get_shots] answers [None] for a scene name that
    is on the scene-ignore list or that no child scene of the job bears;
    for the name of a child scene it answers the names of the children of
    the last scene of that name, in their order, without those on the
    shot-ignore list or in the given filter: an empty list for a scene
    without shots. *)
Theorem get_shots_after_refresh (self : Directory.t) (scene_name : pystr)
    (filter : list pystr) :
  let scenes := contexts.findChildren (contexts.job (Directory.context self)) in
  let answer := (Directory.get_shots (Directory.refresh_tree self) scene_name filter).1 in
  let kept shots :=
    List.filter
      (fun shot => negb (Directory.py_in shot filter)
                   && negb (Directory.py_in shot Directory.shot_ignore_list))
      shots in
  (Directory.py_in scene_name Directory.scene_ignore_list = true ->
   answer = Ok None) /\
  ((forall sc, In sc scenes -> contexts.name sc <> scene_name) ->
   answer = Ok None) /\
  (forall before sc after,
     scenes = before ++ sc :: after ->
     contexts.name sc = scene_name ->
     (forall sc', In sc' after -> contexts.name sc' <> scene_name) ->
     Directory.py_in scene_name Directory.scene_ignore_list = false ->
     answer = Ok (Some (kept (map contexts.name (contexts.findChildren sc))))).
Proof.
  intros scenes answer kept. unfold answer.
  rewrite refresh_tree_is. unfold Directory.get_shots, Directory.getitem.
  cbn [fst Directory.tree_cache Directory.context]. fold scenes.
  rewrite lookup_singleton_eq. unfold mbind, result_bind.
  rewrite cached_lookup. repeat split.
  - intros Hi. unfold Spec.cached_shots. by rewrite Hi.
  - intros Hn. destruct (Spec.cached_shots scenes scene_name) as [l|] eqn:E; [|done].
    assert (is_Some (Spec.cached_shots scenes scene_name)) as Hs by (by eexists).
    apply cached_shots_Some in Hs as [_ (sc & Hin & Hsc)]. by apply Hn in Hin.
  - intros before sc after -> Hsc Hafter Hi.
    unfold Spec.cached_shots. rewrite Hi, List.filter_app. cbn [List.filter].
    unfold Str.eqb at 2. rewrite bool_decide_eq_true_2 by done.
    rewrite (filter_none _ after).
    + rewrite last_snoc. do 2 f_equal. unfold kept. apply filter_ext.
      intros x. by rewrite py_in_app, negb_orb.
    + apply Forall_forall. intros sc' Hin%list_elem_of_In.
      apply bool_decide_eq_false. by apply Hafter.
Qed.

(** The readers over the lists that calls share. *)

Lemma read_iadd a b h :
  Shared.read a (Shared.iadd a b h) = Shared.read a h ++ Shared.read b h.
Proof. unfold Shared.iadd. by destruct a. Qed.

(** Membership in the filter after a second [+=] is membership after the
    first. *)
Lemma py_in_iadd_twice x a b h :
  Directory.py_in x (Shared.read a (Shared.iadd a b (Shared.iadd a b h))) =
  Directory.py_in x (Shared.read a (Shared.iadd a b h)).
Proof.
  rewrite !read_iadd, !py_in_app.
  destruct a, b; cbn [Shared.read Shared.iadd Shared.write
    Shared.scene_ignore_list Shared.shot_ignore_list Shared.get_shots_filter
    Shared.get_scenes_filter Shared.callers_list]; rewrite ?py_in_app;
    repeat match goal with |- context [Directory.py_in x ?l] =>
      destruct (Directory.py_in x l) end; reflexivity.
Qed.

Lemma concat_replicate_snoc {A : Type} n (l : list A) :
  concat (replicate n l) ++ l = l ++ concat (replicate n l).
Proof.
  induction n as [|n IH]; cbn [replicate concat].
  - by rewrite app_nil_r.
  - by rewrite <- app_assoc, IH.
Qed.

Lemma get_scenes_filter_calls (self : Directory.t) n : forall h,
  Shared.get_scenes_filter (Shared.calls n (Shared.get_scenes self None) h) =
    Shared.get_scenes_filter h ++
    concat (replicate n (Shared.scene_ignore_list h)) /\
  Shared.scene_ignore_list (Shared.calls n (Shared.get_scenes self None) h) =
    Shared.scene_ignore_list h.
Proof.
  induction n as [|n IH]; intros h.
  - cbn [Shared.calls replicate concat]. by rewrite app_nil_r.
  - cbn [Shared.calls]. destruct (IH h) as [E1 E2].
    unfold Shared.get_scenes at 1. cbn [snd].
    unfold Shared.iadd. cbn [Shared.read Shared.write Shared.get_scenes_filter
      Shared.scene_ignore_list].
    rewrite E1, E2. split; [|done].
    cbn [replicate concat]. by rewrite <- app_assoc, concat_replicate_snoc.
Qed.

Lemma get_shots_filter_calls (self : Directory.t) scene_name n : forall h,
  Shared.get_shots_filter
    (Shared.calls n (Shared.get_shots self scene_name None) h) =
    Shared.get_shots_filter h ++
    concat (replicate n (Shared.shot_ignore_list h)) /\
  Shared.shot_ignore_list
    (Shared.calls n (Shared.get_shots self scene_name None) h) =
    Shared.shot_ignore_list h.
Proof.
  induction n as [|n IH]; intros h.
  - cbn [Shared.calls replicate concat]. by rewrite app_nil_r.
  - cbn [Shared.calls]. destruct (IH h) as [E1 E2].
    unfold Shared.get_shots at 1. cbn [snd].
    unfold Shared.iadd. cbn [Shared.read Shared.write Shared.get_shots_filter
      Shared.shot_ignore_list].
    rewrite E1, E2. split; [|done].
    cbn [replicate concat]. by rewrite <- app_assoc, concat_replicate_snoc.
Qed.

Lemma scene_ignore_list_calls (self : Directory.t) n : forall h,
  length (Shared.scene_ignore_list
            (Shared.calls n
               (Shared.get_scenes self (Some Shared.ClassSceneIgnore)) h)) =
  2 ^ n * length (Shared.scene_ignore_list h).
Proof.
  induction n as [|n IH]; intros h.
  - cbn [Shared.calls]. simpl. lia.
  - cbn [Shared.calls]. unfold Shared.get_scenes at 1. cbn [snd].
    unfold Shared.iadd. cbn [Shared.read Shared.write Shared.scene_ignore_list].
    rewrite length_app, IH, Nat.pow_succ_r'. lia.
Qed.

Lemma shot_ignore_list_calls (self : Directory.t) scene_name n : forall h,
  length (Shared.shot_ignore_list
            (Shared.calls n
               (Shared.get_shots self scene_name (Some Shared.ClassShotIgnore))
               h)) =
  2 ^ n * length (Shared.shot_ignore_list h).
Proof.
  induction n as [|n IH]; intros h.
  - cbn [Shared.calls]. simpl. lia.
  - cbn [Shared.calls]. unfold Shared.get_shots at 1. cbn [snd].
    unfold Shared.iadd. cbn [Shared.read Shared.write Shared.shot_ignore_list].
    rewrite length_app, IH, Nat.pow_succ_r'. lia.
Qed.

(** X19.  The readers extend the list object that is bound to [filter].
    For a list of the caller's own, as long as the ignore list is the one
    of the class definition, the answer and the list after the call are
    those of the reading by value, and no other list changes.  When
    [filter] is left out the list is the default one of the reader, the
    same at every call: after [n] calls it has grown by [n] copies of the
    ignore list.  When the ignore list itself is passed it doubles at
    every call.  Whatever list is passed, a second call with it gives the
    answer of the first. *)
Theorem readers_extend_filter (self : Directory.t) (scene_name : pystr)
    (h : Shared.store) :
  let scenes := Shared.get_scenes self in
  let shots := Shared.get_shots self scene_name in
  (Shared.scene_ignore_list h = Directory.scene_ignore_list ->
   scenes (Some Shared.CallersList) h =
     ((Directory.get_scenes self (Shared.callers_list h)).1,
      Shared.write Shared.CallersList
        (Directory.get_scenes self (Shared.callers_list h)).2 h)) /\
  (Shared.shot_ignore_list h = Directory.shot_ignore_list ->
   shots (Some Shared.CallersList) h =
     ((Directory.get_shots self scene_name (Shared.callers_list h)).1,
      Shared.write Shared.CallersList
        (Directory.get_shots self scene_name (Shared.callers_list h)).2 h)) /\
  (forall n,
     Shared.get_scenes_filter (Shared.calls n (scenes None) h) =
       Shared.get_scenes_filter h ++
       concat (replicate n (Shared.scene_ignore_list h)) /\
     Shared.get_shots_filter (Shared.calls n (shots None) h) =
       Shared.get_shots_filter h ++
       concat (replicate n (Shared.shot_ignore_list h))) /\
  (forall n,
     length (Shared.scene_ignore_list
               (Shared.calls n (scenes (Some Shared.ClassSceneIgnore)) h)) =
       2 ^ n * length (Shared.scene_ignore_list h) /\
     length (Shared.shot_ignore_list
               (Shared.calls n (shots (Some Shared.ClassShotIgnore)) h)) =
       2 ^ n * length (Shared.shot_ignore_list h)) /\
  (forall filter,
     (scenes filter (scenes filter h).2).1 = (scenes filter h).1 /\
     (shots filter (shots filter h).2).1 = (shots filter h).1).
Proof.
  intros scenes shots. split; [|split; [|split; [|split]]].
  - intros E. unfold scenes, Shared.get_scenes, Directory.get_scenes.
    cbn [fst snd]. unfold Shared.iadd. cbn [Shared.read Shared.write].
    by rewrite E.
  - intros E. unfold shots, Shared.get_shots, Directory.get_shots.
    cbn [fst snd]. unfold Shared.iadd. cbn [Shared.read Shared.write].
    by rewrite E.
  - intros n. split.
    + apply get_scenes_filter_calls.
    + apply get_shots_filter_calls.
  - intros n. split.
    + apply scene_ignore_list_calls.
    + apply shot_ignore_list_calls.
  - intros filter. split.
    + unfold scenes, Shared.get_scenes. cbn [fst snd].
      destruct (Directory.getitem _ _) as [m|e]; [|done].
      step_bind. f_equal. apply filter_ext. intros x.
      by rewrite py_in_iadd_twice.
    + unfold shots, Shared.get_shots. cbn [fst snd].
      destruct (Directory.getitem _ _) as [m|e]; [|done].
      step_bind. destruct (m !! scene_name); [|done].
      do 2 f_equal. apply filter_ext. intros x.
      by rewrite py_in_iadd_twice.
Qed.

(** X20.  A call of [set_cur_dir] that supplies nothing, or only values
    that are false in the sense of Python (an empty name, an empty
    dictionary), validates the current fields again: it returns what the
    validation of the context made from them says, and the fields of the
    context are the current ones. *)
Theorem set_cur_dir_supplies_nothing (self : Directory.t)
    (job shot scene : value) (from_dict : option (gmap pystr value)) :
  let current := contexts.as_dict (Directory.context self) in
  let again := contexts.Shot_fromDict current in
  truthy job = false -> truthy shot = false -> truthy scene = false ->
  Directory.given_dict from_dict = None ->
  is_Some (current !! lit "job") ->
  is_Some (current !! lit "shot") ->
  is_Some (current !! lit "scene") ->
  Directory.set_cur_dir self job shot scene from_dict =
  (Ok (contexts.validateContext again),
   if contexts.validateContext again
   then Directory.Build again (Directory.tree_cache self)
   else self).
Proof.
  intros current again Hj Hsh Hsc Hg [j Ej] [sh Esh] [sc Esc].
  unfold Directory.set_cur_dir, Directory.validate, Directory.set_context,
    Directory.getitem.
  rewrite Hg, Hj, Hsh, Hsc. fold current. step_bind.
  rewrite Ej. cbv beta iota. rewrite (insert_id current _ _ Ej).
  rewrite Esh. cbv beta iota. rewrite (insert_id current _ _ Esh).
  rewrite Esc. cbv beta iota. rewrite (insert_id current _ _ Esc).
  fold again. destruct self as [ctx tc].
  cbn [Directory.context Directory.tree_cache].
  by destruct (contexts.validateContext again).
Qed.

End CacheFacts.

Lemma readers_extend_filter_witness :
  (Shared.get_scenes (@Directory.__init__ Studio.authority Directory.InNone)
     (Some Shared.CallersList) (Shared.at_import [lit "tmp"])).2 =
  Shared.at_import (lit "tmp" :: Directory.scene_ignore_list).
Proof.
  destruct (readers_extend_filter
              (@Directory.__init__ Studio.authority Directory.InNone) []
              (Shared.at_import [lit "tmp"])) as [H _].
  rewrite H by reflexivity. reflexivity.
Defined.

Lemma init_from_path_witness :
  exists d : gmap pystr value,
    Directory.context
      (@Directory.__init__ Studio.authority
         (Directory.InStr (lit "/jobs/alpha/build/char_a/maya/scenes/x.ma"))) = d /\
    d !! lit "job" = Some (VStr (lit "alpha")) /\
    d !! lit "shot" = Some (VStr (lit "char_a")).
Proof.
  destruct (@init_from_path Studio.authority
              (lit "/jobs/alpha/build/char_a/maya/scenes/x.ma"))
    as (d & Hd & H & _).
  - vm_compute. repeat constructor; by (rewrite ?elem_of_cons; intros H;
      repeat (destruct H as [H|H]; [discriminate H|]); by apply elem_of_nil in H).
  - exists d. split; [exact Hd|]. split.
    + apply (H 0 (lit "job")); [reflexivity|by left].
    + apply (H 2 (lit "shot")); [reflexivity|right; right; by left].
Defined.

Lemma init_defaults_witness :
  exists sf,
    SceneFile.__init__ (lit "aweber") VNone VNone (VInt 0) (VStr (lit "aw"))
      VNone VNone = Ok sf /\
    forall v, sf !! "version" = Some v -> truthy v = true.
Proof.
  eexists. split; [reflexivity|]. intros v Hv.
  pose proof (init_defaults (lit "aweber") VNone VNone (VInt 0)
                (VStr (lit "aw")) VNone VNone) as H.
  cbv beta iota in H. destruct H as (_ & H & _).
  by apply (H "version" v Hv).
Defined.

Lemma get_shots_after_refresh_witness :
  let d0 := @Directory.__init__ Studio.authority
              (Directory.InDict (Studio.context_of "alpha" "build" "char_a")) in
  (Directory.get_shots (Directory.refresh_tree d0) (lit "build") []).1 =
  Ok (Some [lit "char_a"]).
Proof.
  intros d0.
  destruct (@get_shots_after_refresh Studio.authority d0 (lit "build") [])
    as (_ & _ & H).
  apply (H [] (contexts.Node (lit "build")
                 [contexts.Node (lit "char_a") []; contexts.Node (lit "config") []])
           [contexts.Node (lit "archive") [contexts.Node (lit "old") []];
            contexts.Node (lit "shots") [contexts.Node (lit "sh01") []]]).
  - reflexivity.
  - reflexivity.
  - intros sc' [<-|[<-|[]]]; discriminate.
  - reflexivity.
Defined.

Lemma set_cur_dir_supplies_nothing_witness :
  let d0 := @Directory.__init__ Studio.authority
              (Directory.InDict (Studio.context_of "alpha" "build" "char_a")) in
  Directory.set_cur_dir d0 VNone (VStr []) (VInt 0) (Some ∅) = (Ok true, d0).
Proof.
  intros d0.
  apply (@set_cur_dir_supplies_nothing Studio.authority d0
           VNone (VStr []) (VInt 0) (Some ∅)); try reflexivity;
    vm_compute; by eexists.
Defined.

Lemma job_switch_breaks_readers_witness :
  let d0 := @Directory.__init__ Studio.authority
              (Directory.InDict (Studio.context_of "alpha" "build" "char_a")) in
  (Directory.get_scenes
     (Directory.set_cur_dir d0 (VStr (lit "beta")) (VStr (lit "sh02"))
                            (VStr (lit "shots")) None).2 []).1 =
  Raise (KeyError (lit "beta")).
Proof.
  intros d0.
  eapply (@job_switch_breaks_readers Studio.authority d0
            (VStr (lit "beta")) (VStr (lit "sh02")) (VStr (lit "shots")) None
            (lit "alpha") _ _ _ [] (lit "shots")).
  Unshelve.
  - exact (fold_left cache_scene
             (contexts.findChildren
                (@contexts.job Studio.authority (Directory.context d0))) ∅).
  - unfold d0, Directory.__init__. rewrite refresh_tree_is. reflexivity.
  - vm_compute. discriminate.
Defined.

(** * The text of a descriptor *)

Lemma default_user_str login v :
  SceneFile.default_user login = Ok v -> exists u, v = VStr u.
Proof.
  unfold SceneFile.default_user, mbind, result_bind, Str.index0, Str.last_item.
  destruct login as [|a login]; [done|].
  destruct (last _) as [[|b part]|]; try done. intros [= <-]. by eexists.
Qed.

(** X21.  The text of a descriptor that [from_existing] returns is its
    version, its discipline and its author, separated by a comma and a
    space; [__repr__] and [__str__] give the same text and do not raise.
    On a descriptor whose discipline is not a string they raise
    [TypeError]. *)
Theorem repr_of_inferred (login s : pystr) (sf : obj) :
  SceneFile.from_existing login s = Ok sf ->
  (exists v d u,
     sf !! "version" = Some (VInt v) /\
     sf !! "discipline" = Some (VStr d) /\
     sf !! "user" = Some (VStr u) /\
     SceneFile.__repr__ sf =
       Ok (Str.str_of_Z v ++ lit ", " ++ d ++ lit ", " ++ u) /\
     SceneFile.__str__ sf = SceneFile.__repr__ sf) /\
  (forall z, SceneFile.__repr__ (<["discipline" := VInt z]> sf) = Raise TypeError).
Proof.
  intros H.
  destruct (from_existing_outcome login s)
    as [(Hr & _)|(sf' & user & H' & Hu & Hv & Hd & Hsf & _)]; [congruence|].
  assert (sf' = sf) as -> by congruence.
  assert (exists u, user = VStr u) as [u ->].
  { destruct (Spec.read_user s); [by eexists|by eapply default_user_str]. }
  split.
  - exists (Spec.stored_version (Spec.read_version s)), (Spec.read_discipline s), u.
    repeat split; try done.
    unfold SceneFile.__repr__, getattr, mbind, result_bind.
    rewrite Hv, Hd, Hsf. simpl. by destruct u.
  - intros z. unfold SceneFile.__repr__, getattr, mbind, result_bind.
    rewrite lookup_insert_ne by done. rewrite Hv, lookup_insert_eq.
    rewrite lookup_insert_ne by done. by rewrite Hsf.
Qed.

Lemma repr_of_inferred_witness :
  exists sf,
    SceneFile.from_existing (lit "aweber") (lit "char_mdl_rig_v003.ma") = Ok sf /\
    SceneFile.__repr__ (<["discipline" := VInt 5]> sf) = Raise TypeError.
Proof.
  eexists. split; [reflexivity|].
  by apply (repr_of_inferred (lit "aweber") (lit "char_mdl_rig_v003.ma") _ eq_refl).
Defined.

(** * What [from_existing] leaves out *)

Lemma default_user_two login v :
  SceneFile.default_user login = Ok v -> exists a b, v = VStr [a; b].
Proof.
  unfold SceneFile.default_user, mbind, result_bind, Str.index0, Str.last_item.
  destruct login as [|a login]; [done|].
  destruct (last _) as [[|b part]|]; try done. intros [= <-]. by eexists _, _.
Qed.

Lemma read_user_two s u : Spec.read_user s = Some u -> length u = 2.
Proof.
  unfold Spec.read_user.
  destruct (last _) as [tok|] eqn:El; [|done]. intros [= <-].
  apply last_Some_elem_of, list_elem_of_In, filter_In in El as [Hin _].
  assert (Forall (fun x => length x = 2 /\ forallb Str.is_word x = true)
                 (Spec.taken 0 (Spec.all_occurrences Spec.token_here s))) as F.
  { rewrite <- findall_taken.
    - apply scan_Forall. intros prev s' x n. apply token_here_shape.
    - intros prev s' x n H. by apply token_here_consumes in H as [? _]. }
  rewrite Forall_forall in F. apply list_elem_of_In, F in Hin as [Hl _].
  unfold Str.lower. by rewrite length_map.
Qed.

(** X22.  Whatever the file name, the descriptor that [from_existing]
    returns has the description [unititled], no optional tag and an author
    of exactly two characters: the description and the optional tag are
    not read from the name. *)
Theorem from_existing_leaves_out (login s : pystr) (sf : obj) :
  SceneFile.from_existing login s = Ok sf ->
  sf !! "description" = Some (VStr (lit "unititled")) /\
  sf !! "optional" = Some VNone /\
  exists u, sf !! "user" = Some (VStr u) /\ length u = 2.
Proof.
  rewrite from_existing_reads. unfold mbind, result_bind.
  destruct (Spec.read_user s) as [u|] eqn:E.
  - intros [= <-]. repeat split. exists u. split; [done|]. by eapply read_user_two.
  - destruct (SceneFile.default_user login) as [v|e] eqn:Ed; [|done].
    destruct (default_user_two _ _ Ed) as (a & b & ->).
    intros [= <-]. repeat split. by exists [a; b].
Qed.

Lemma from_existing_leaves_out_witness :
  exists sf,
    SceneFile.from_existing (lit "aweber") (lit "hero_RIG_v012_jd_final.ma") = Ok sf /\
    sf !! "description" = Some (VStr (lit "unititled")) /\
    sf !! "optional" = Some VNone.
Proof.
  eexists. split; [reflexivity|].
  destruct (from_existing_leaves_out (lit "aweber")
              (lit "hero_RIG_v012_jd_final.ma") _ eq_refl) as (H1 & H2 & _).
  by split.
Defined.

(** X23.  [_findDiscipline] returns the empty string exactly when no
    discipline code occurs in the name, in any case, and a code of the
    list of disciplines otherwise. *)
Theorem findDiscipline_known (s : pystr) :
  (SceneFile._findDiscipline s = [] <->
   Spec.all_occurrences Spec.code_here s = []) /\
  (SceneFile._findDiscipline s <> [] ->
   In (SceneFile._findDiscipline s) SceneFile.disciplines).
Proof.
  rewrite findDiscipline_reads.
  destruct (last (Spec.taken 0 _)) as [d|] eqn:E.
  - pose proof (last_Forall _ _ _ (taken_codes_nonempty s) E) as Hne.
    repeat split; try done.
    + intros Ho. rewrite Ho in E. done.
    + intros _. pose proof (read_discipline_known s) as Hk.
      unfold Spec.read_discipline in Hk. by rewrite E in Hk.
  - apply last_None in E. repeat split; try done. intros _.
    destruct (Spec.all_occurrences Spec.code_here s) eqn:Eo; [done|].
    exfalso. by apply (taken_first (p :: l)).
Qed.

Lemma findDiscipline_known_witness :
  In (SceneFile._findDiscipline (lit "char_TechAnim_v001.ma")) SceneFile.disciplines.
Proof.
  destruct (findDiscipline_known (lit "char_TechAnim_v001.ma")) as [_ H].
  apply H. vm_compute. discriminate.
Defined.
